(** * N-up imposition engine ([impose8up]): model and verified properties

    A shallow embedding of [lib/impose.ts]: the header pre-check
    [isProbablyPdf], the loading loop that flattens every accepted document
    into one page list, the sheet loop with its three per-chunk [Map]s
    ([neededByDoc], [embeddedMap], [consumedByDoc]), the scale-and-center
    placement and the result record.

    Conventions of the model.
    - A JS number is a value of a type [num] with the operations of the class
      [Number].  The engine is written once over that interface; it is read
      in exact rational arithmetic ([Q]) for the algebraic theorems and in
      IEEE binary64 ([PrimFloat.float]) to evaluate it bit for bit.
    - A [PDFDocument] object is a handle: its index in the arena of the
      documents opened so far.  [Map]s keyed by a document are [gmap]s keyed
      by the handle.
    - [PDFDocument.load] and [save] belong to pdf-lib; they are parameters
      of the development.  A thrown exception is the outcome [Thrown]. *)

From Stdlib Require Import QArith Qminmax Lqa PrimFloat Uint63.
From stdpp Require Import gmap list strings pretty.

Local Open Scope nat_scope.

(** ** JS numbers *)

Class Number (num : Type) := {
  nnat : nat -> num;            (* an integer value, such as a loop index *)
  ndec : Q -> num;              (* a decimal literal, such as 25.4 *)
  nadd : num -> num -> num;
  nsub : num -> num -> num;
  nmul : num -> num -> num;
  ndiv : num -> num -> num;
  nmin : num -> num -> num      (* Math.min *)
}.

Declare Scope num_scope.
Delimit Scope num_scope with num.
Infix "+" := nadd : num_scope.
Infix "-" := nsub : num_scope.
Infix "*" := nmul : num_scope.
Infix "/" := ndiv : num_scope.

(** Exact arithmetic. *)
#[export] Instance Q_Number : Number Q := {|
  nnat n := inject_Z (Z.of_nat n);
  ndec q := q;
  nadd := Qplus;
  nsub := Qminus;
  nmul := Qmult;
  ndiv := Qdiv;
  nmin := Qmin
|}.

(** IEEE binary64, the arithmetic JS runs. *)
Definition float_of_Z (z : Z) : float :=
  let m := PrimFloat.of_uint63 (Uint63.of_Z (Z.abs z)) in
  if (z <? 0)%Z then PrimFloat.opp m else m.

Definition float_min (a b : float) : float :=
  if PrimFloat.is_nan a || PrimFloat.is_nan b then PrimFloat.nan
  else if PrimFloat.ltb a b then a
  else if PrimFloat.ltb b a then b
  else if PrimFloat.get_sign a then a else b.

#[export] Instance float_Number : Number float := {|
  nnat n := float_of_Z (Z.of_nat n);
  ndec q := PrimFloat.div (float_of_Z (Qnum q)) (float_of_Z (Z.pos (Qden q)));
  nadd := PrimFloat.add;
  nsub := PrimFloat.sub;
  nmul := PrimFloat.mul;
  ndiv := PrimFloat.div;
  nmin := float_min
|}.

(** ** Options and results *)

Inductive Paper := A4 | A3.
Inductive Orientation := landscape | portrait.
Inductive Layout := L4x2 | L2x4.

Record ImpositionOptions (num : Type) := {
  paper : Paper;
  orientation : Orientation;
  layout : Layout;
  margin_mm : num;
  gap_mm : num
}.
Arguments paper {num} _.
Arguments orientation {num} _.
Arguments layout {num} _.
Arguments margin_mm {num} _.
Arguments gap_mm {num} _.

Record BadFile := { path : string; error : string }.

Record ImpositionResult := {
  success : bool;
  pdfBytes : option (list Byte.byte);
  total_pages : option nat;
  sheets : option nat;
  bad_files : list BadFile;
  total_bad : nat;
  result_error : option string
}.

(** The constants the engine derives from the options before it touches a
    file: the locals [w], [h], [cols], [rows], [margin], [gap], [cellW] and
    [cellH] of [impose8up]. *)
Module Geom.
Record t (num : Type) := mk {
  w : num; h : num;
  cols : nat; rows : nat;
  margin : num; gap : num;
  cellW : num; cellH : num
}.
Arguments mk {num}.
Arguments w {num} _.
Arguments h {num} _.
Arguments cols {num} _.
Arguments rows {num} _.
Arguments margin {num} _.
Arguments gap {num} _.
Arguments cellW {num} _.
Arguments cellH {num} _.
End Geom.

(** ** Documents, page references, placements *)

(** What the engine reads of an opened document: its pages, each with its
    width and height. *)
Record OpenedDocument (num : Type) := { pages : list (num * num) }.
Arguments pages {num} _.

(** A document handle: an index in the arena of opened documents. *)
Abbreviation handle := nat (only parsing).

(** An element of [allPages]: [{ doc, pageIndex }]. *)
Record PageRef := { doc : handle; pageIndex : nat }.

(** A page embedded in the output document: it remembers which page of which
    document it came from, and has that page's size. *)
Record EmbeddedPage (num : Type) := {
  source : PageRef;
  width : num;
  height : num
}.
Arguments source {num} _.
Arguments width {num} _.
Arguments height {num} _.

(** One [sheet.drawPage(embeddedPage, { x, y, width, height })]. *)
Record Placement (num : Type) := {
  drawn : EmbeddedPage num;
  at_x : num;
  at_y : num;
  drawn_width : num;
  drawn_height : num
}.
Arguments drawn {num} _.
Arguments at_x {num} _.
Arguments at_y {num} _.
Arguments drawn_width {num} _.
Arguments drawn_height {num} _.

(** An output page, [out.addPage([w, h])], and what was drawn on it. *)
Record Sheet (num : Type) := {
  sheet_w : num;
  sheet_h : num;
  placed : list (Placement num)
}.
Arguments sheet_w {num} _.
Arguments sheet_h {num} _.
Arguments placed {num} _.

Record InputFile := { name : string; data : list Byte.byte }.

(** ** Outcomes *)

Inductive completion (A : Type) :=
| Returned (a : A)
| Thrown
| OutOfFuel.
Arguments Returned {A} _.
Arguments Thrown {A}.
Arguments OutOfFuel {A}.

#[export] Instance completion_ret : MRet completion := @Returned.
#[export] Instance completion_bind : MBind completion := fun A B f m =>
  match m with
  | Returned a => f a
  | Thrown => Thrown
  | OutOfFuel => OutOfFuel
  end.

Definition of_option {A} (o : option A) : completion A :=
  match o with Some a => Returned a | None => Thrown end.

(** What a run reports, when it returns. *)
Definition on_return {A B} (f : A → B) (c : completion A) : completion B :=
  match c with
  | Returned a => Returned (f a)
  | Thrown => Thrown
  | OutOfFuel => OutOfFuel
  end.

(** ** The engine *)

Section Engine.
Context {num : Type} `{Number num}.

(** *** Header pre-check *)

(** [buffer[i] === v]; reading past the end gives [undefined]. *)
Definition byte_is (buffer : list Byte.byte) (i : nat) (v : Byte.byte) : bool :=
  match buffer !! i with
  | Some b => Byte.eqb b v
  | None => false
  end.

(** At least 1024 bytes, and the magic header [%PDF-]. *)
Definition isProbablyPdf (buffer : list Byte.byte) : bool :=
  if length buffer <? 1024 then false
  else
    byte_is buffer 0 Byte.x25 &&   (* % *)
    byte_is buffer 1 Byte.x50 &&   (* P *)
    byte_is buffer 2 Byte.x44 &&   (* D *)
    byte_is buffer 3 Byte.x46 &&   (* F *)
    byte_is buffer 4 Byte.x2d.     (* - *)

(** *** Geometry *)

Definition PAPER_SIZES (p : Paper) : num * num :=
  match p with
  | A4 => (nnat 595, nnat 842)
  | A3 => (nnat 842, nnat 1191)
  end.

(** [72 / 25.4] *)
Definition MM_TO_PT : num := (nnat 72 / ndec (254 # 10))%num.

(** The first lines of [impose8up]: sheet size, swapped in landscape;
    grid; margin and gap in points; the size of a cell. *)
Definition geometry (options : ImpositionOptions num) : Geom.t num :=
  let '(w0, h0) := PAPER_SIZES (paper options) in
  let '(w, h) :=
    match orientation options with
    | landscape => (h0, w0)
    | portrait => (w0, h0)
    end in
  let '(cols, rows) :=
    match layout options with
    | L4x2 => (4, 2)
    | L2x4 => (2, 4)
    end in
  let margin := (margin_mm options * MM_TO_PT)%num in
  let gap := (gap_mm options * MM_TO_PT)%num in
  let cellW := ((w - nnat 2 * margin - nnat (cols - 1) * gap) / nnat cols)%num in
  let cellH := ((h - nnat 2 * margin - nnat (rows - 1) * gap) / nnat rows)%num in
  Geom.mk w h cols rows margin gap cellW cellH.

(** The cell of position [j] of a chunk: [col = j % cols],
    [row = Math.floor(j / cols)], and the origin [(x, y)] of the cell. *)
Definition cell_x (g : Geom.t num) (j : nat) : num :=
  let col := j mod Geom.cols g in
  (Geom.margin g + nnat col * (Geom.cellW g + Geom.gap g))%num.

Definition cell_y (g : Geom.t num) (j : nat) : num :=
  let row := j / Geom.cols g in
  (Geom.h g - Geom.margin g - nnat (row + 1) * Geom.cellH g
     - nnat row * Geom.gap g)%num.

(** Scale to fit the cell, keep the proportion, center. *)
Definition place (g : Geom.t num) (j : nat) (embeddedPage : EmbeddedPage num)
  : Placement num :=
  let x := cell_x g j in
  let y := cell_y g j in
  let srcW := width embeddedPage in
  let srcH := height embeddedPage in
  let scale := nmin (Geom.cellW g / srcW)%num (Geom.cellH g / srcH)%num in
  let scaledW := (srcW * scale)%num in
  let scaledH := (srcH * scale)%num in
  let offsetX := (x + (Geom.cellW g - scaledW) / nnat 2)%num in
  let offsetY := (y + (Geom.cellH g - scaledH) / nnat 2)%num in
  {| drawn := embeddedPage;
     at_x := offsetX; at_y := offsetY;
     drawn_width := scaledW; drawn_height := scaledH |}.

(** *** Loading and flattening *)

(** [PDFDocument.load] followed by [getPageCount], inside the [try]: either
    an exception with its message, or an opened document. *)
Inductive LoadResult :=
| LoadError (message : string)
| Loaded (d : OpenedDocument num).

Variable pdf_load : list Byte.byte -> LoadResult.

Definition getPageCount (d : OpenedDocument num) : nat := length (pages d).

(** The outcome of the checks on one file. *)
Inductive validation :=
| Accept (d : OpenedDocument num)
| Reject (reason : string).

(** The decision the body of the loading loop takes for one file. *)
Definition validate (buffer : list Byte.byte) : validation :=
  if negb (isProbablyPdf buffer) then
    Reject "Not a valid PDF (bad header or too small)"
  else
    match pdf_load buffer with
    | LoadError message => Reject message
    | Loaded d =>
        let count := getPageCount d in
        if count =? 0 then Reject "0 pages" else Accept d
    end.

(** The state of the loading loop: the documents kept, [allPages] and
    [bad].  A page reference points to its document by handle. *)
Record LoadState := {
  arena : list (OpenedDocument num);   (* the documents opened and kept *)
  allPages : list PageRef;
  bad : list BadFile
}.

(** One turn of [for (const file of inputFiles)]: a rejected file adds a
    record to [bad]; an accepted one appends a reference for each of its
    pages, [for (let i = 0; i < count; i++)]. *)
Definition load_step (st : LoadState) (file : InputFile) : LoadState :=
  match validate (data file) with
  | Reject reason =>
      {| arena := arena st;
         allPages := allPages st;
         bad := bad st ++ [ {| path := name file; error := reason |} ] |}
  | Accept d =>
      let h := length (arena st) in
      {| arena := arena st ++ [d];
         allPages := allPages st ++
           ((fun i => {| doc := h; pageIndex := i |}) <$> seq 0 (getPageCount d));
         bad := bad st |}
  end.

Definition load_all (inputFiles : list InputFile) : LoadState :=
  foldl load_step {| arena := []; allPages := []; bad := [] |} inputFiles.

(** *** One sheet *)

(** A page object of a source document. *)
Record Page := {
  origin : PageRef;
  page_width : num;
  page_height : num
}.

(** [doc.getPage(idx)]; it throws when the index is out of range. *)
Definition getPage (docs : list (OpenedDocument num)) (d : handle) (idx : nat)
  : completion Page :=
  document ← of_option (docs !! d);
  size ← of_option (pages document !! idx);
  mret {| origin := {| doc := d; pageIndex := idx |};
          page_width := size.1; page_height := size.2 |}.

(** [out.embedPages]: one embedded page per page, in order, each of the
    size of its page. *)
Definition embedPage (p : Page) : EmbeddedPage num :=
  {| source := origin p; width := page_width p; height := page_height p |}.

Definition embedPages (ps : list Page) : list (EmbeddedPage num) :=
  embedPage <$> ps.

(** [if (!neededByDoc.has(doc)) neededByDoc.set(doc, []);
     neededByDoc.get(doc).push(pageIndex)] *)
Definition needed_step (m : gmap handle (list nat)) (p : PageRef)
  : gmap handle (list nat) :=
  <[doc p := default [] (m !! doc p) ++ [pageIndex p]]> m.

Definition neededByDoc (chunk : list PageRef) : gmap handle (list nat) :=
  foldl needed_step ∅ chunk.

(** [embeddedMap.set(doc, await out.embedPages(indices.map(idx =>
    doc.getPage(idx))))], for each entry of [neededByDoc].  Each document
    is set once, so the order of the entries does not show in the map. *)
Definition embed_step (docs : list (OpenedDocument num))
    (d : handle) (indices : list nat)
    (acc : completion (gmap handle (list (EmbeddedPage num))))
  : completion (gmap handle (list (EmbeddedPage num))) :=
  embeddedMap ← acc;
  ps ← mapM (getPage docs d) indices;
  mret (<[d := embedPages ps]> embeddedMap).

Definition embedAll (docs : list (OpenedDocument num))
    (needed : gmap handle (list nat))
  : completion (gmap handle (list (EmbeddedPage num))) :=
  map_fold (embed_step docs) (mret ∅) needed.

(** [for (let j = 0; j < chunk.length; j++)]: take the next embedded
    page of the document of [chunk[j]], advance the counter of that
    document, draw the page in cell [j]. *)
Fixpoint draw_loop (g : Geom.t num)
    (embeddedMap : gmap handle (list (EmbeddedPage num)))
    (chunk : list PageRef) (j : nat)
    (consumedByDoc : gmap handle nat) (sheet : list (Placement num))
  : completion (list (Placement num)) :=
  match chunk with
  | [] => mret sheet
  | p :: rest =>
      let consumed := default 0 (consumedByDoc !! doc p) in
      embedded ← of_option (embeddedMap !! doc p);
      embeddedPage ← of_option (embedded !! consumed);
      draw_loop g embeddedMap rest (j + 1)
        (<[doc p := consumed + 1]> consumedByDoc)
        (sheet ++ [place g j embeddedPage])
  end.

(** The body of the sheet loop for one chunk. *)
Definition draw_sheet (g : Geom.t num) (docs : list (OpenedDocument num))
    (chunk : list PageRef) : completion (Sheet num) :=
  embeddedMap ← embedAll docs (neededByDoc chunk);
  ps ← draw_loop g embeddedMap chunk 0 ∅ [];
  mret {| sheet_w := Geom.w g; sheet_h := Geom.h g; placed := ps |}.

(** *** The sheet loop: [for (let i = 0; i < allPages.length; i += perSheet)] *)

Fixpoint sheet_loop (fuel : nat) (g : Geom.t num)
    (docs : list (OpenedDocument num)) (all : list PageRef)
    (i : nat) (out : list (Sheet num)) : completion (list (Sheet num)) :=
  let perSheet := Geom.cols g * Geom.rows g in
  if i <? length all then
    match fuel with
    | 0 => OutOfFuel
    | S fuel' =>
        let chunk := take perSheet (drop i all) in
        sheet ← draw_sheet g docs chunk;
        sheet_loop fuel' g docs all (i + perSheet) (out ++ [sheet])
    end
  else mret out.

(** Each turn moves [i] forward by [perSheet]: one unit of fuel per page
    is enough for the grids of the engine. *)
Definition assemble (g : Geom.t num) (docs : list (OpenedDocument num))
    (all : list PageRef) : completion (list (Sheet num)) :=
  sheet_loop (length all) g docs all 0 [].

(** *** The entry point *)

(** [out.save()], which may throw. *)
Variable pdf_save : list (Sheet num) -> completion (list Byte.byte).

Definition impose8up (inputFiles : list InputFile)
    (options : ImpositionOptions num) : completion ImpositionResult :=
  let g := geometry options in
  let st := load_all inputFiles in
  if length (allPages st) =? 0 then
    mret {| success := false;
            pdfBytes := None;
            total_pages := None;
            sheets := None;
            bad_files := take 50 (bad st);
            total_bad := length (bad st);
            result_error := Some "Aucun PDF valide n'a pu être ouvert." |}
  else
    out ← assemble g (arena st) (allPages st);
    bytes ← pdf_save out;
    mret {| success := true;
            pdfBytes := Some bytes;
            total_pages := Some (length (allPages st));
            sheets := Some (length out);
            bad_files := take 50 (bad st);
            total_bad := length (bad st);
            result_error := None |}.

End Engine.

(** ** The vocabulary of the properties *)

(** The five bytes of [%PDF-]. *)
Definition magic : list Byte.byte :=
  [Byte.x25; Byte.x50; Byte.x44; Byte.x46; Byte.x2d].

Section Vocabulary.
Context {num : Type} `{Number num}.
Variable pdf_load : list Byte.byte -> @LoadResult num.
Implicit Types (docs : list (OpenedDocument num)) (chunk : list PageRef).

(** The references to the pages of one document, in page order. *)
Definition pages_of (h : handle) (d : OpenedDocument num) : list PageRef :=
  (fun i => {| doc := h; pageIndex := i |}) <$> seq 0 (getPageCount d).

(** The concatenation of the pages of a list of documents, the first of
    which has handle [h0]. *)
Fixpoint flattened (h0 : handle) (docs : list (OpenedDocument num))
  : list PageRef :=
  match docs with
  | [] => []
  | d :: ds => pages_of h0 d ++ flattened (S h0) ds
  end.

(** The documents of the accepted inputs, in input order. *)
Definition accepted (inputFiles : list InputFile) : list (OpenedDocument num) :=
  omap (fun file =>
          match validate pdf_load (data file) with
          | Accept d => Some d
          | Reject _ => None
          end) inputFiles.

(** The records of the rejected inputs, in input order. *)
Definition rejections (inputFiles : list InputFile) : list BadFile :=
  omap (fun file =>
          match validate pdf_load (data file) with
          | Accept _ => None
          | Reject reason => Some {| path := name file; error := reason |}
          end) inputFiles.

(** Whether the loading loop keeps a file. *)
Definition is_accepted (file : InputFile) : bool :=
  match validate pdf_load (data file) with
  | Accept _ => true
  | Reject _ => false
  end.


(** The page indices a chunk needs from document [d], in chunk order. *)
Definition indices_of (d : handle) (chunk : list PageRef) : list nat :=
  pageIndex <$> filter (fun p => doc p = d) chunk.

(** A list as the value of a map that holds no empty list. *)
Definition nonempty {A} (l : list A) : option (list A) :=
  match l with [] => None | _ => Some l end.

(** The embedded page a reference stands for, when the page exists. *)
Definition embedded_ref docs (p : PageRef) : option (EmbeddedPage num) :=
  document ← docs !! doc p;
  size ← pages document !! pageIndex p;
  Some {| source := p; width := size.1; height := size.2 |}.

(** What [embeddedMap] holds once the embedding loop has run. *)
Definition embedded_for docs (needed : gmap handle (list nat))
    (embeddedMap : gmap handle (list (EmbeddedPage num))) : Prop :=
  ∀ d,
    match needed !! d with
    | Some idxs =>
        ∃ eps, embeddedMap !! d = Some eps ∧
               Forall2 (fun idx ep =>
                          embedded_ref docs {| doc := d; pageIndex := idx |} = Some ep)
                       idxs eps
    | None => embeddedMap !! d = None
    end.

(** A sheet that shows a chunk: it has one placement per reference, in chunk
    order, each of the page the reference names, put in the cell of its
    position. *)
Definition sheet_of (g : Geom.t num) docs chunk (sheet : Sheet num) : Prop :=
  sheet_w sheet = Geom.w g ∧ sheet_h sheet = Geom.h g ∧
  length (placed sheet) = length chunk ∧
  ∀ j p, chunk !! j = Some p →
    ∃ ep, embedded_ref docs p = Some ep ∧
          placed sheet !! j = Some (place g j ep).

(** The references of the pages drawn on a list of sheets, sheet after
    sheet, in drawing order. *)
Definition drawn_refs (out : list (Sheet num)) : list PageRef :=
  (fun pl => source (drawn pl)) <$> concat (placed <$> out).

End Vocabulary.

(** A natural number as a rational. *)
Definition ofnat (n : nat) : Q := inject_Z (Z.of_nat n).

(** ** The upload form ([ImpositionPage]) *)

(** A browser [File]: its name, its MIME type and its content. *)
Record File := {
  file_name : string;
  file_type : string;
  file_bytes : list Byte.byte
}.

(** [file.size] *)
Definition file_size (f : File) : N := N.of_nat (length (file_bytes f)).

(** [x.toFixed(1)] for [x = a / b], a quotient of naturals that binary64
    holds exactly (here [b] is a power of two): the tenths nearest to [x],
    the larger of two that are as near, written with one decimal. *)
Definition toFixed1 (a b : N) : string :=
  let n := ((10 * a + b / 2) / b)%N in
  pretty (n / 10)%N +:+ "." +:+ pretty (n mod 10)%N.

Definition formatSize (bytes : N) : string :=
  if (bytes <? 1024)%N then pretty bytes +:+ " B"
  else if (bytes <? 1024 * 1024)%N then toFixed1 bytes 1024 +:+ " KB"
  else toFixed1 bytes (1024 * 1024) +:+ " MB".

(** [s.endsWith(suffix)] *)
Definition endsWith (s suffix : string) : bool :=
  let n := String.length s in
  let m := String.length suffix in
  (m <=? n) && String.eqb (String.substring (n - m) m s) suffix.

(** The first version of the page: the input replaces the selection. *)
Module PageV1.

Record State := {
  files : list File;
  badFiles : list BadFile;
  totalBad : nat;
  resultInfo : option (nat * nat)
}.

Definition initial : State :=
  {| files := []; badFiles := []; totalBad := 0; resultInfo := None |}.

(** The message and the status line are not part of the state modelled. *)
Definition handleFileChange (selected : option (list File)) (s : State) : State :=
  match selected with
  | None => s
  | Some arr =>
      if 800 <? length arr then s
      else {| files := arr; badFiles := []; totalBad := 0; resultInfo := None |}
  end.

(** [prev.filter((_, i) => i !== index)] *)
Definition removeFile (index : nat) (s : State) : State :=
  {| files := snd <$> filter (fun p => p.1 ≠ index) (imap pair (files s));
     badFiles := badFiles s; totalBad := totalBad s; resultInfo := resultInfo s |}.

Inductive Event :=
| FileChange (selected : option (list File))
| Remove (index : nat).

Definition step (s : State) (e : Event) : State :=
  match e with
  | FileChange selected => handleFileChange selected s
  | Remove index => removeFile index s
  end.

End PageV1.

(** The second version: files are added to the selection, by the input or
    by drag and drop. *)
Module Page.

Record State := {
  files : list File;
  badFiles : list BadFile;
  totalBad : nat;
  resultInfo : option (nat * nat);
  isDragging : bool;
  dragCounter : Z
}.

Definition initial : State :=
  {| files := []; badFiles := []; totalBad := 0; resultInfo := None;
     isDragging := false; dragCounter := 0 |}.

Definition isPdf (f : File) : bool :=
  String.eqb (file_type f) "application/pdf" || endsWith (file_name f) ".pdf".

(** The updater given to [setFiles], and the resets that follow it.  The
    message shown when the limit is hit depends on when React runs the
    updater; it is not part of the state modelled. *)
Definition addFiles (newFiles : list File) (s : State) : State :=
  let pdfFiles := filter (fun f => isPdf f) newFiles in
  if length pdfFiles =? 0 then s
  else
    {| files :=
         (let combined := files s ++ pdfFiles in
          if 800 <? length combined then files s else combined);
       badFiles := []; totalBad := 0; resultInfo := None;
       isDragging := isDragging s; dragCounter := dragCounter s |}.

Definition handleFileChange (selected : option (list File)) (s : State) : State :=
  match selected with
  | None => s
  | Some l => addFiles l s
  end.

Definition handleDragEnter (s : State) : State :=
  {| files := files s; badFiles := badFiles s; totalBad := totalBad s;
     resultInfo := resultInfo s;
     isDragging := true; dragCounter := (dragCounter s + 1)%Z |}.

Definition handleDragLeave (s : State) : State :=
  let counter := (dragCounter s - 1)%Z in
  {| files := files s; badFiles := badFiles s; totalBad := totalBad s;
     resultInfo := resultInfo s;
     isDragging := if (counter =? 0)%Z then false else isDragging s;
     dragCounter := counter |}.

Definition handleDragOver (s : State) : State := s.

Definition handleDrop (dropped : option (list File)) (s : State) : State :=
  let s' :=
    {| files := files s; badFiles := badFiles s; totalBad := totalBad s;
       resultInfo := resultInfo s;
       isDragging := false; dragCounter := 0 |} in
  match dropped with
  | None => s'
  | Some l => addFiles l s'
  end.

(** [prev.filter((_, i) => i !== index)] *)
Definition removeFile (index : nat) (s : State) : State :=
  {| files := snd <$> filter (fun p => p.1 ≠ index) (imap pair (files s));
     badFiles := badFiles s; totalBad := totalBad s; resultInfo := resultInfo s;
     isDragging := isDragging s; dragCounter := dragCounter s |}.

Inductive Event :=
| FileChange (selected : option (list File))
| DragEnter
| DragLeave
| DragOver
| Drop (dropped : option (list File))
| Remove (index : nat).

Definition step (s : State) (e : Event) : State :=
  match e with
  | FileChange selected => handleFileChange selected s
  | DragEnter => handleDragEnter s
  | DragLeave => handleDragLeave s
  | DragOver => handleDragOver s
  | Drop dropped => handleDrop dropped s
  | Remove index => removeFile index s
  end.

(** A sequence of events in which the pointer never leaves more often than
    it entered since the last drop; [c] counts the entries not yet left. *)
Fixpoint nested (c : nat) (events : list Event) : bool :=
  match events with
  | [] => true
  | DragEnter :: rest => nested (S c) rest
  | DragLeave :: rest => match c with 0 => false | S c' => nested c' rest end
  | Drop _ :: rest => nested 0 rest
  | _ :: rest => nested c rest
  end.

End Page.

(** A selection within the limits of the form. *)
Definition selection_ok (s : Page.State) : Prop :=
  length (Page.files s) ≤ 800 ∧ Forall (fun f => Page.isPdf f = true) (Page.files s).

(** ** The route handler ([POST /api/impose-8up]) *)

Definition MAX_FILES : nat := 800.
Definition MAX_FILE_SIZE : N := (100 * 1024 * 1024)%N.

(** The fields of the multipart form; a field that was not sent is [None]. *)
Record FormData := {
  form_paper : option string;
  form_orientation : option string;
  form_layout : option string;
  form_margin_mm : option string;
  form_gap_mm : option string;
  form_files : list File
}.

(** What the handler reads of [new Date()]. *)
Record Date := {
  getFullYear : nat;
  getMonth : nat;
  getDate : nat;
  getHours : nat;
  getMinutes : nat;
  getSeconds : nat
}.

Inductive Response :=
| JsonError (status : nat) (message : string)
    (bad : option (list BadFile * nat))      (* [bad_files], [total_bad] *)
| InternalError                                (* 500, the exception's message *)
| PdfAttachment (body : list Byte.byte) (filename : string)
    (x_total_pages x_sheets : nat) (x_bad_files : list BadFile)
    (x_total_bad : nat).                       (* 200 *)

Definition status_of (r : Response) : nat :=
  match r with
  | JsonError status _ _ => status
  | InternalError => 500
  | PdfAttachment _ _ _ _ _ _ => 200
  end.

(** [(formData.get(key) as string) || fallback] *)
Definition field_or (field : option string) (fallback : string) : string :=
  match field with
  | Some s => if String.eqb s EmptyString then fallback else s
  | None => fallback
  end.

(** [toUpperCase] on the letters of ASCII; no other character becomes one
    of the characters of [A4] and [A3]. *)
Definition upper_ascii (c : Ascii.ascii) : Ascii.ascii :=
  let n := Ascii.nat_of_ascii c in
  if (97 <=? n) && (n <=? 122) then Ascii.ascii_of_nat (n - 32) else c.

Fixpoint toUpperCase (s : string) : string :=
  match s with
  | EmptyString => EmptyString
  | String c rest => String (upper_ascii c) (toUpperCase rest)
  end.

(** [["A4", "A3"].includes(paper)], with the value the engine gets. *)
Definition paper_of (s : string) : option Paper :=
  if String.eqb s "A4" then Some A4
  else if String.eqb s "A3" then Some A3
  else None.

Definition orientation_of (s : string) : option Orientation :=
  if String.eqb s "landscape" then Some landscape
  else if String.eqb s "portrait" then Some portrait
  else None.

Definition layout_of (s : string) : option Layout :=
  if String.eqb s "4x2" then Some L4x2
  else if String.eqb s "2x4" then Some L2x4
  else None.

(** [String(n).padStart(2, "0")] *)
Definition pad (n : nat) : string :=
  if n <? 10 then "0" +:+ pretty n else pretty n.

Definition quote : string := String (Ascii.ascii_of_nat 34) EmptyString.

(** The loop that reads the files into memory: the name of the first file
    over the limit, or the inputs of the engine. *)
Fixpoint read_files (files : list File) (inputFiles : list InputFile)
  : string + list InputFile :=
  match files with
  | [] => inr inputFiles
  | file :: rest =>
      if (MAX_FILE_SIZE <? file_size file)%N then inl (file_name file)
      else read_files rest
             (inputFiles ++ [ {| name := file_name file; data := file_bytes file |} ])
  end.

(** The input of the engine made of an uploaded file. *)
Definition to_input (file : File) : InputFile :=
  {| name := file_name file; data := file_bytes file |}.

(** The request with every field sent, each with the text the handler
    reads for it. *)
Definition with_defaults (formData : FormData) : FormData :=
  {| form_paper := Some (toUpperCase (field_or (form_paper formData) "A4"));
     form_orientation := Some (field_or (form_orientation formData) "landscape");
     form_layout := Some (field_or (form_layout formData) "4x2");
     form_margin_mm := Some (field_or (form_margin_mm formData) "6.0");
     form_gap_mm := Some (field_or (form_gap_mm formData) "3.0");
     form_files := form_files formData |}.

Section Route.
Context {num : Type} `{Number num}.
Variable pdf_load : list Byte.byte -> @LoadResult num.
Variable pdf_save : list (Sheet num) -> completion (list Byte.byte).
(** [parseFloat], [isNaN] and [<] on JS numbers. *)
Variable parseFloat : string -> num.
Variable isNaN : num -> bool.
Variable nlt : num -> num -> bool.

Definition bad_request (message : string) : completion Response :=
  Returned (JsonError 400 message None).

(** [isNaN(x) || x < 0 || x > 50] *)
Definition out_of_range (x : num) : bool :=
  isNaN x || nlt x (nnat 0) || nlt (nnat 50) x.

Definition POST (formData : FormData) (now : Date) : completion Response :=
  let paper := toUpperCase (field_or (form_paper formData) "A4") in
  let orientation := field_or (form_orientation formData) "landscape" in
  let layout := field_or (form_layout formData) "4x2" in
  let marginMm := parseFloat (field_or (form_margin_mm formData) "6.0") in
  let gapMm := parseFloat (field_or (form_gap_mm formData) "3.0") in
  match paper_of paper with
  | None => bad_request "Paper must be A4 or A3"
  | Some paper =>
  match orientation_of orientation with
  | None => bad_request "Orientation must be landscape or portrait"
  | Some orientation =>
  match layout_of layout with
  | None => bad_request "Layout must be 4x2 or 2x4"
  | Some layout =>
  if out_of_range marginMm then
    bad_request "margin_mm must be between 0 and 50"
  else if out_of_range gapMm then
    bad_request "gap_mm must be between 0 and 50"
  else
  let files := form_files formData in
  if length files =? 0 then bad_request "No files uploaded"
  else if MAX_FILES <? length files then
    bad_request ("Too many files (" +:+ pretty (length files) +:+
                 "). Maximum is " +:+ pretty MAX_FILES +:+ ".")
  else
  match read_files files [] with
  | inl file_name =>
      bad_request ("File " +:+ quote +:+ file_name +:+ quote +:+
                   " exceeds 100 MB limit.")
  | inr inputFiles =>
      let options :=
        {| paper := paper; orientation := orientation; layout := layout;
           margin_mm := marginMm; gap_mm := gapMm |} in
      match impose8up pdf_load pdf_save inputFiles options with
      | OutOfFuel => OutOfFuel
      | Thrown => Returned InternalError
      | Returned result =>
          match success result, pdfBytes result with
          | true, Some bytes =>
              let ts :=
                pretty (getFullYear now) +:+ pad (getMonth now + 1) +:+
                pad (getDate now) +:+ "_" +:+ pad (getHours now) +:+
                pad (getMinutes now) +:+ pad (getSeconds now) in
              Returned
                (PdfAttachment bytes ("LOT_" +:+ ts +:+ ".pdf")
                   (default 0 (total_pages result))
                   (default 0 (sheets result))
                   (bad_files result) (total_bad result))
          | _, _ =>
              Returned
                (JsonError 422
                   (field_or (result_error result) "Imposition failed")
                   (Some (bad_files result, total_bad result)))
          end
      end
  end
  end end end.

(** The text fields pass the checks of the handler. *)
Definition valid_fields (formData : FormData) : Prop :=
  let paper := toUpperCase (field_or (form_paper formData) "A4") in
  let orientation := field_or (form_orientation formData) "landscape" in
  let layout := field_or (form_layout formData) "4x2" in
  (paper = "A4" ∨ paper = "A3") ∧
  (orientation = "landscape" ∨ orientation = "portrait") ∧
  (layout = "4x2" ∨ layout = "2x4") ∧
  out_of_range (parseFloat (field_or (form_margin_mm formData) "6.0")) = false ∧
  out_of_range (parseFloat (field_or (form_gap_mm formData) "3.0")) = false.

(** A request that passes every check of the handler. *)
Definition valid_request (formData : FormData) : Prop :=
  valid_fields formData ∧
  1 ≤ length (form_files formData) ≤ MAX_FILES ∧
  ∀ file, file ∈ form_files formData → (file_size file ≤ MAX_FILE_SIZE)%N.

(** The options the engine gets from a valid request. *)
Definition options_of (formData : FormData) : ImpositionOptions num :=
  {| paper :=
       default A4 (paper_of (toUpperCase (field_or (form_paper formData) "A4")));
     orientation :=
       default landscape
         (orientation_of (field_or (form_orientation formData) "landscape"));
     layout := default L4x2 (layout_of (field_or (form_layout formData) "4x2"));
     margin_mm := parseFloat (field_or (form_margin_mm formData) "6.0");
     gap_mm := parseFloat (field_or (form_gap_mm formData) "3.0") |}.

End Route.

(** ** Concrete data *)

(** A stand-in for pdf-lib on test buffers: the byte after the header is
    the number of pages (A4 portrait), [0xff] makes the parser throw. *)
Definition demo_load {num} `{Number num} (buffer : list Byte.byte)
  : @LoadResult num :=
  match buffer !! 5 with
  | Some Byte.xff => LoadError "Failed to parse PDF document"
  | Some b => Loaded {| pages := replicate (Byte.to_nat b) (nnat 595, nnat 842) |}
  | None => LoadError "No PDF header found"
  end.

Definition demo_save {num} (tag : Byte.byte) (out : list (Sheet num))
  : completion (list Byte.byte) :=
  Returned (magic ++ [tag]).

Definition pdf_buffer (n : Byte.byte) : list Byte.byte :=
  magic ++ n :: replicate 1018 Byte.x00.

Definition pdf_file (s : string) (n : Byte.byte) : InputFile :=
  {| name := s; data := pdf_buffer n |}.

Definition junk_file (s : string) : InputFile :=
  {| name := s; data := replicate 2000 Byte.x00 |}.

Definition demo_options : ImpositionOptions Q :=
  {| paper := A4; orientation := landscape; layout := L4x2;
     margin_mm := 6%Q; gap_mm := 3%Q |}.

(** One page, an empty document, a truncated file, three pages, a file the
    parser refuses, nine pages. *)
Definition demo_inputs : list InputFile :=
  [ pdf_file "a.pdf" Byte.x01; pdf_file "b.pdf" Byte.x00;
    {| name := "c.pdf"; data := [] |}; pdf_file "d.pdf" Byte.x03;
    pdf_file "e.pdf" Byte.xff; pdf_file "f.pdf" Byte.x09 ].

Definition demo_page : EmbeddedPage Q :=
  {| source := {| doc := 0; pageIndex := 0 |};
     width := 595%Q; height := 842%Q |}.




(** A stand-in for [parseFloat] in binary64, on the texts used below; any
    other text is not a number. *)
Definition demo_parseFloat (s : string) : float :=
  if String.eqb s "6.0" then 6%float
  else if String.eqb s "3.0" then 3%float
  else if String.eqb s "50" then 50%float
  else if String.eqb s "-1" then (-1)%float
  else PrimFloat.nan.

Definition upload (s : string) (n : Byte.byte) : File :=
  {| file_name := s; file_type := "application/pdf"; file_bytes := pdf_buffer n |}.

(** Three uploads, of three, no and nine pages; no text field but an empty
    layout. *)
Definition demo_form : FormData :=
  {| form_paper := Some "a4"; form_orientation := None;
     form_layout := Some EmptyString;
     form_margin_mm := None; form_gap_mm := None;
     form_files :=
       [upload "a.pdf" Byte.x03; upload "b.pdf" Byte.x00; upload "c.pdf" Byte.x09] |}.

(** Two uploads that cannot be opened. *)
Definition junk_form : FormData :=
  {| form_paper := None; form_orientation := Some "portrait";
     form_layout := Some "2x4";
     form_margin_mm := Some "50"; form_gap_mm := None;
     form_files :=
       [upload "b.pdf" Byte.x00;
        {| file_name := "notes.txt"; file_type := "text/plain"; file_bytes := [] |}] |}.

(** An upload of one byte more than the limit. *)
Definition oversize : File :=
  {| file_name := "big.pdf"; file_type := "application/pdf";
     file_bytes := replicate (N.to_nat (MAX_FILE_SIZE + 1)) Byte.x00 |}.

Definition oversize_form : FormData :=
  {| form_paper := None; form_orientation := None; form_layout := None;
     form_margin_mm := None; form_gap_mm := None;
     form_files := [upload "a.pdf" Byte.x03; oversize; upload "c.pdf" Byte.x09] |}.

Definition demo_date : Date :=
  {| getFullYear := 2026; getMonth := 0; getDate := 5;
     getHours := 9; getMinutes := 30; getSeconds := 7 |}.



(** [lra] does not read a division: half is written as a product. *)
Ltac halve := unfold Qdiv; change (/ 2) with (1 # 2).

(** The number of a concrete row or column, evaluated. *)
Ltac numerals :=
  unfold cell_x, cell_y, nnat, nadd, nsub, nmul; cbn [Q_Number];
  repeat match goal with
         | |- context [inject_Z (Z.of_nat ?n)] =>
             let v := eval vm_compute in (inject_Z (Z.of_nat n)) in
             change (inject_Z (Z.of_nat n)) with v
         end.

(** ** Outcomes: inversion *)

Lemma bind_Returned {A B} (f : A → completion B) (m : completion A) (b : B) :
  m ≫= f = Returned b ↔ ∃ a, m = Returned a ∧ f a = Returned b.
Proof.
  destruct m as [a| |]; simpl.
  - split; [eauto|]. by intros (? & [= <-] & ?).
  - split; [done|]. by intros (? & ? & _).
  - split; [done|]. by intros (? & ? & _).
Qed.

(** ** The loading loop in closed form *)

Section Loading.
Context {num : Type} `{Number num}.
Variable pdf_load : list Byte.byte -> @LoadResult num.
Implicit Types (d : OpenedDocument num) (docs ds : list (OpenedDocument num)).

Lemma length_pages_of h d : length (pages_of h d) = getPageCount d.
Proof. unfold pages_of. by rewrite length_fmap, length_seq. Qed.

Lemma lookup_pages_of h d k p :
  pages_of h d !! k = Some p ↔ p = {| doc := h; pageIndex := k |} ∧ k < getPageCount d.
Proof.
  unfold pages_of. rewrite list_lookup_fmap. split.
  - intros Hk. destruct (seq 0 (getPageCount d) !! k) as [i|] eqn:Hi; [|done].
    apply lookup_seq in Hi as [-> ?]. simpl in Hk. by injection Hk as <-.
  - intros [-> Hk]. by rewrite (lookup_seq_lt _ _ _ Hk).
Qed.

Lemma load_fold st inputFiles :
  foldl (load_step pdf_load) st inputFiles =
    {| arena := arena st ++ accepted pdf_load inputFiles;
       allPages := allPages st ++ flattened (length (arena st)) (accepted pdf_load inputFiles);
       bad := bad st ++ rejections pdf_load inputFiles |}.
Proof.
  revert st. induction inputFiles as [|file rest IH]; intros st; simpl.
  - destruct st. by rewrite !app_nil_r.
  - rewrite IH. unfold load_step, accepted, rejections. simpl.
    destruct (validate pdf_load (data file)) as [d|reason]; simpl.
    + rewrite length_app. simpl. rewrite <- !app_assoc. simpl.
      by rewrite Nat.add_1_r.
    + by rewrite <- !app_assoc.
Qed.

Lemma load_all_arena inputFiles :
  arena (load_all pdf_load inputFiles) = accepted pdf_load inputFiles.
Proof. unfold load_all. by rewrite load_fold. Qed.

Lemma load_all_allPages inputFiles :
  allPages (load_all pdf_load inputFiles) = flattened 0 (accepted pdf_load inputFiles).
Proof. unfold load_all. by rewrite load_fold. Qed.

Lemma load_all_bad inputFiles :
  bad (load_all pdf_load inputFiles) = rejections pdf_load inputFiles.
Proof. unfold load_all. by rewrite load_fold. Qed.

Lemma accepted_count_pos d inputFiles :
  d ∈ accepted pdf_load inputFiles → 0 < getPageCount d.
Proof.
  unfold accepted. rewrite list_elem_of_omap. intros (file & _ & Hv).
  unfold validate in Hv.
  destruct (negb _); [done|].
  destruct (pdf_load _) as [?|d']; [done|].
  destruct (getPageCount d' =? 0) eqn:Hc; [done|].
  injection Hv as <-. apply Nat.eqb_neq in Hc. lia.
Qed.

(** An accepted document has a page, so that no page is left exactly when
    no input is accepted. *)
Lemma no_page_iff_none_accepted inputFiles :
  length (allPages (load_all pdf_load inputFiles)) = 0 ↔
  accepted pdf_load inputFiles = [].
Proof.
  rewrite load_all_allPages.
  destruct (accepted pdf_load inputFiles) as [|d ds] eqn:Hacc; [done|].
  split; [|done]. simpl. rewrite length_app, length_pages_of.
  assert (0 < getPageCount d); [|lia].
  apply (accepted_count_pos d inputFiles). rewrite Hacc. by left.
Qed.

Lemma length_flattened h0 docs :
  length (flattened h0 docs) = sum_list (getPageCount <$> docs).
Proof.
  revert h0. induction docs as [|d ds IH]; intros h0; simpl; [done|].
  by rewrite length_app, length_pages_of, IH.
Qed.

(** Every reference of the flattened list names a page that exists. *)
Lemma flattened_valid docs h0 g p :
  flattened h0 docs !! g = Some p →
  ∃ d, docs !! (doc p - h0) = Some d ∧ h0 ≤ doc p ∧ pageIndex p < getPageCount d.
Proof.
  revert h0 g. induction docs as [|d ds IH]; intros h0 g; simpl; [done|].
  rewrite lookup_app. destruct (pages_of h0 d !! g) as [q|] eqn:Hq.
  - intros [= <-]. apply lookup_pages_of in Hq as [-> Hg]. simpl.
    exists d. by rewrite Nat.sub_diag.
  - intros Hg. apply IH in Hg as (d' & Hd' & Hle & Hlt).
    exists d'. replace (doc p - h0) with (S (doc p - S h0)) by lia.
    split_and!; [done|lia|done].
Qed.


Lemma accepted_omap_cons file rest :
  accepted pdf_load (file :: rest) =
    match validate pdf_load (data file) with
    | Accept d => d :: accepted pdf_load rest
    | Reject _ => accepted pdf_load rest
    end.
Proof. unfold accepted. simpl. by destruct (validate pdf_load (data file)). Qed.

Lemma rejections_omap_cons file rest :
  rejections pdf_load (file :: rest) =
    match validate pdf_load (data file) with
    | Accept _ => rejections pdf_load rest
    | Reject reason => {| path := name file; error := reason |} :: rejections pdf_load rest
    end.
Proof. unfold rejections. simpl. by destruct (validate pdf_load (data file)). Qed.

Lemma accepted_filter inputFiles :
  accepted pdf_load (filter (fun file => is_accepted pdf_load file) inputFiles) = accepted pdf_load inputFiles.
Proof.
  induction inputFiles as [|file rest IH]; [done|].
  destruct (is_accepted pdf_load file) eqn:Hacc.
  - rewrite filter_cons_True by (rewrite Hacc; exact I).
    rewrite !accepted_omap_cons, IH. done.
  - rewrite filter_cons_False by (rewrite Hacc; exact id).
    rewrite accepted_omap_cons, IH. unfold is_accepted in Hacc.
    by destruct (validate pdf_load (data file)).
Qed.

Lemma rejections_filter inputFiles :
  rejections pdf_load (filter (fun file => is_accepted pdf_load file) inputFiles) = [].
Proof.
  induction inputFiles as [|file rest IH]; [done|].
  destruct (is_accepted pdf_load file) eqn:Hacc.
  - rewrite filter_cons_True by (rewrite Hacc; exact I).
    rewrite rejections_omap_cons, IH. unfold is_accepted in Hacc.
    by destruct (validate pdf_load (data file)).
  - by rewrite filter_cons_False by (rewrite Hacc; exact id).
Qed.

Lemma rejections_all inputFiles :
  (∀ file, file ∈ inputFiles → is_accepted pdf_load file = false) →
  accepted pdf_load inputFiles = [] ∧ length (rejections pdf_load inputFiles) = length inputFiles.
Proof.
  induction inputFiles as [|file rest IH]; intros Hall; [done|].
  destruct IH as [IHa IHr].
  { intros f Hf. apply Hall. by right. }
  specialize (Hall file (list_elem_of_here _ _)).
  unfold is_accepted in Hall.
  rewrite accepted_omap_cons, rejections_omap_cons.
  destruct (validate pdf_load (data file)); [done|].
  simpl. by rewrite IHa, IHr.
Qed.

End Loading.

(** ** One chunk: the three maps *)

Section Chunk.
Context {num : Type} `{Number num}.
Implicit Types (docs : list (OpenedDocument num)) (chunk : list PageRef).
Implicit Types (out : list (Sheet num)) (ep : EmbeddedPage num).

Lemma indices_of_app d chunk1 chunk2 :
  indices_of d (chunk1 ++ chunk2) = indices_of d chunk1 ++ indices_of d chunk2.
Proof. unfold indices_of. by rewrite filter_app, fmap_app. Qed.

Lemma indices_of_one d p :
  indices_of d [p] = if decide (doc p = d) then [pageIndex p] else [].
Proof.
  unfold indices_of. rewrite filter_cons, filter_nil.
  by destruct (decide (doc p = d)).
Qed.

Lemma elem_of_indices_of d chunk idx :
  idx ∈ indices_of d chunk → {| doc := d; pageIndex := idx |} ∈ chunk.
Proof.
  unfold indices_of. rewrite list_elem_of_fmap.
  intros ([d' i'] & -> & Hp). apply list_elem_of_filter in Hp as [Hd Hp].
  simpl in *. by subst.
Qed.

Lemma nonempty_snoc {A} (l : list A) x : nonempty (l ++ [x]) = Some (l ++ [x]).
Proof. by destruct l. Qed.

Lemma nonempty_default {A} (l : list A) : default [] (nonempty l) = l.
Proof. by destruct l. Qed.

Lemma needed_fold chunk m pre :
  (∀ d, m !! d = nonempty (indices_of d pre)) →
  ∀ d, foldl needed_step m chunk !! d = nonempty (indices_of d (pre ++ chunk)).
Proof.
  revert m pre. induction chunk as [|p rest IH]; intros m pre Hm d; simpl.
  - by rewrite app_nil_r.
  - rewrite (IH _ (pre ++ [p])); [by rewrite <- app_assoc|].
    intros d'. unfold needed_step.
    rewrite indices_of_app, indices_of_one.
    destruct (decide (doc p = d')) as [<-|Hne].
    + by rewrite lookup_insert_eq, Hm, nonempty_default, nonempty_snoc.
    + by rewrite lookup_insert_ne, app_nil_r.
Qed.

Lemma neededByDoc_lookup chunk d :
  neededByDoc chunk !! d = nonempty (indices_of d chunk).
Proof. unfold neededByDoc. by apply (needed_fold chunk ∅ []). Qed.

Lemma mapM_Returned {A B} (f : A → completion B) l k :
  mapM f l = Returned k ↔ Forall2 (fun x y => f x = Returned y) l k.
Proof.
  revert k. induction l as [|x l IH]; intros k.
  - split; [intros [= <-]; constructor | by inversion 1].
  - change (mapM f (x :: l)) with (y ← f x; k' ← mapM f l; mret (y :: k')).
    rewrite bind_Returned. split.
    + intros (y & Hy & Hk). apply bind_Returned in Hk as (k' & Hk' & [= <-]).
      constructor; [done|]. by apply IH.
    + inversion 1 as [|? y ? k' Hy Hk]; subst.
      exists y. split; [done|]. apply bind_Returned.
      exists k'. split; [by apply IH|done].
Qed.

Lemma getPage_embedded docs d idx ep :
  embedded_ref docs {| doc := d; pageIndex := idx |} = Some ep →
  ∃ pg, getPage docs d idx = Returned pg ∧ embedPage pg = ep.
Proof.
  unfold embedded_ref, getPage. simpl.
  destruct (docs !! d) as [document|]; simpl; [|done].
  destruct (pages document !! idx) as [size|]; simpl; [|done].
  intros [= <-]. eexists. split; [reflexivity|done].
Qed.

Lemma mapM_getPage docs d idxs :
  (∀ idx, idx ∈ idxs → is_Some (embedded_ref docs {| doc := d; pageIndex := idx |})) →
  ∃ ps, mapM (getPage docs d) idxs = Returned ps ∧
        Forall2 (fun idx ep =>
                   embedded_ref docs {| doc := d; pageIndex := idx |} = Some ep)
                idxs (embedPages ps).
Proof.
  induction idxs as [|idx idxs IH]; intros Hvalid.
  - exists []. split; [done|constructor].
  - destruct IH as (ps & Hps & Hall).
    { intros i Hi. apply Hvalid. by right. }
    destruct (Hvalid idx (list_elem_of_here _ _)) as [ep Hep].
    destruct (getPage_embedded _ _ _ _ Hep) as (pg & Hpg & <-).
    exists (pg :: ps). split.
    + apply mapM_Returned. constructor; [done|]. by apply mapM_Returned.
    + by constructor.
Qed.

Lemma embedAll_spec docs (needed : gmap handle (list nat)) :
  (∀ d idxs idx, needed !! d = Some idxs → idx ∈ idxs →
     is_Some (embedded_ref docs {| doc := d; pageIndex := idx |})) →
  ∃ embeddedMap, embedAll docs needed = Returned embeddedMap ∧
                 embedded_for docs needed embeddedMap.
Proof.
  unfold embedAll.
  apply (map_fold_weak_ind
    (fun r (m : gmap handle (list nat)) =>
       (∀ d idxs idx, m !! d = Some idxs → idx ∈ idxs →
          is_Some (embedded_ref docs {| doc := d; pageIndex := idx |})) →
       ∃ embeddedMap, r = Returned embeddedMap ∧ embedded_for docs m embeddedMap)).
  - intros _. exists ∅. split; [done|]. intros d. by rewrite !lookup_empty.
  - intros d idxs m r Hfresh IH Hvalid.
    destruct IH as (em & -> & Hem).
    { intros d' idxs' idx Hd'. apply Hvalid.
      rewrite lookup_insert_ne; [done|]. intros ->. congruence. }
    destruct (mapM_getPage docs d idxs) as (ps & Hps & Hall).
    { intros idx. apply Hvalid. by rewrite lookup_insert_eq. }
    exists (<[d := embedPages ps]> em). split.
    + unfold embed_step. simpl. by rewrite Hps.
    + intros d'. destruct (decide (d = d')) as [<-|Hne].
      * rewrite !lookup_insert_eq. eauto.
      * rewrite !lookup_insert_ne by done. apply Hem.
Qed.

Lemma needed_of_member chunk p :
  p ∈ chunk →
  neededByDoc chunk !! doc p = Some (indices_of (doc p) chunk).
Proof.
  intros Hp. rewrite neededByDoc_lookup.
  apply list_elem_of_split in Hp as (l1 & l2 & ->).
  rewrite indices_of_app, (indices_of_app _ [p] l2), indices_of_one.
  rewrite decide_True by done. by destruct (indices_of (doc p) l1).
Qed.

(** The drawing loop, started after a prefix [pre] of the chunk: the
    counter of each document is the number of its pages in [pre]. *)
Lemma draw_loop_spec (g : Geom.t num) docs chunk embeddedMap :
  embedded_for docs (neededByDoc chunk) embeddedMap →
  ∀ rest pre (consumedByDoc : gmap handle nat) sheet,
    chunk = pre ++ rest →
    (∀ d, default 0 (consumedByDoc !! d) = length (indices_of d pre)) →
    ∃ ps,
      draw_loop g embeddedMap rest (length pre) consumedByDoc sheet
        = Returned (sheet ++ ps) ∧
      length ps = length rest ∧
      ∀ k p, rest !! k = Some p →
        ∃ ep, embedded_ref docs p = Some ep ∧
              ps !! k = Some (place g (length pre + k) ep).
Proof.
  intros Hem. induction rest as [|p rest IH]; intros pre consumedByDoc sheet Hchunk Hcons.
  - exists []. by rewrite app_nil_r.
  - assert (Hp : p ∈ chunk).
    { rewrite Hchunk. apply elem_of_app. right. by left. }
    specialize (Hem (doc p)). rewrite (needed_of_member _ _ Hp) in Hem.
    destruct Hem as (eps & Heps & Hall).
    assert (Hidx : indices_of (doc p) chunk !! length (indices_of (doc p) pre)
                   = Some (pageIndex p)).
    { rewrite Hchunk, indices_of_app, (indices_of_app _ [p] rest), indices_of_one.
      rewrite decide_True by done. by apply list_lookup_middle. }
    destruct (Forall2_lookup_l _ _ _ _ _ Hall Hidx) as (ep & Hep & Href).
    assert (Hrefp : embedded_ref docs p = Some ep) by (by destruct p).
    destruct (IH (pre ++ [p]) (<[doc p := length (indices_of (doc p) pre) + 1]> consumedByDoc)
                 (sheet ++ [place g (length pre) ep])) as (ps & Hps & Hlen & Hlook).
    { by rewrite <- app_assoc. }
    { intros d. rewrite indices_of_app, indices_of_one, length_app.
      destruct (decide (doc p = d)) as [<-|Hne].
      - by rewrite lookup_insert_eq.
      - rewrite lookup_insert_ne by done. rewrite Hcons. simpl. lia. }
    exists (place g (length pre) ep :: ps). split_and!.
    + simpl. rewrite Heps. simpl. rewrite Hcons, Hep. simpl.
      rewrite length_app in Hps. simpl in Hps. rewrite Hps.
      by rewrite <- app_assoc.
    + simpl. by rewrite Hlen.
    + intros [|k] q; simpl.
      * intros [= <-]. exists ep. by rewrite Nat.add_0_r.
      * intros Hq. destruct (Hlook _ _ Hq) as (eq & ? & Hk).
        exists eq. split; [done|]. rewrite Hk, length_app. simpl.
        by replace (length pre + 1 + k) with (length pre + S k) by lia.
Qed.

Lemma draw_sheet_spec (g : Geom.t num) docs chunk :
  (∀ p, p ∈ chunk → is_Some (embedded_ref docs p)) →
  ∃ sheet, draw_sheet g docs chunk = Returned sheet ∧ sheet_of g docs chunk sheet.
Proof.
  intros Hvalid.
  destruct (embedAll_spec docs (neededByDoc chunk)) as (em & Hem & Hfor).
  { intros d idxs idx Hd Hidx. apply Hvalid.
    rewrite neededByDoc_lookup in Hd.
    assert (idxs = indices_of d chunk) as ->.
    { destruct (indices_of d chunk); simpl in Hd; congruence. }
    by apply elem_of_indices_of. }
  destruct (draw_loop_spec g docs chunk em Hfor chunk [] ∅ [])
    as (ps & Hps & Hlen & Hlook); [done|done|].
  simpl in Hps.
  exists {| sheet_w := Geom.w g; sheet_h := Geom.h g; placed := ps |}. split.
  - unfold draw_sheet. rewrite Hem. simpl. by rewrite Hps.
  - by split_and!.
Qed.

Lemma drawn_refs_cons (sheet : Sheet num) out :
  drawn_refs (sheet :: out) =
    ((fun pl => source (drawn pl)) <$> placed sheet) ++ drawn_refs out.
Proof. unfold drawn_refs. simpl. by rewrite fmap_app. Qed.

Lemma embedded_ref_source docs p ep :
  embedded_ref docs p = Some ep → source ep = p.
Proof.
  unfold embedded_ref.
  destruct (docs !! doc p) as [document|]; simpl; [|done].
  destruct (pages document !! pageIndex p); simpl; [|done].
  by intros [= <-].
Qed.

Lemma sheet_of_sources (g : Geom.t num) docs chunk sheet :
  sheet_of g docs chunk sheet →
  (fun pl => source (drawn pl)) <$> placed sheet = chunk.
Proof.
  intros (_ & _ & Hlen & Hlook). apply list_eq. intros j.
  rewrite list_lookup_fmap.
  destruct (chunk !! j) as [p|] eqn:Hp.
  - destruct (Hlook _ _ Hp) as (ep & Hep & ->). simpl.
    by rewrite (embedded_ref_source _ _ _ Hep).
  - apply lookup_ge_None in Hp. rewrite <- Hlen in Hp.
    apply lookup_ge_None in Hp. by rewrite Hp.
Qed.

End Chunk.

(** ** The sheet loop *)

Section Assembly.
Context {num : Type} `{Number num}.
Variables (g : Geom.t num) (docs : list (OpenedDocument num)) (all : list PageRef).

Let perSheet := Geom.cols g * Geom.rows g.

Hypothesis perSheet_pos : 0 < perSheet.
Hypothesis all_valid : ∀ p, p ∈ all → is_Some (embedded_ref docs p).

Lemma sheet_loop_unfold fuel i out :
  sheet_loop fuel g docs all i out =
    if i <? length all then
      match fuel with
      | 0 => OutOfFuel
      | S fuel' =>
          sheet ← draw_sheet g docs (take perSheet (drop i all));
          sheet_loop fuel' g docs all (i + perSheet) (out ++ [sheet])
      end
    else Returned out.
Proof. by destruct fuel. Qed.

(** With fuel for the pages that are left, the loop returns: it appends one
    sheet for each chunk that starts before the end of [all]. *)
Lemma sheet_loop_spec fuel :
  ∀ i out, length all - i ≤ fuel →
    ∃ new,
      sheet_loop fuel g docs all i out = Returned (out ++ new) ∧
      (∀ k, k < length new ↔ i + k * perSheet < length all) ∧
      (∀ k sheet, new !! k = Some sheet →
        sheet_of g docs (take perSheet (drop (i + k * perSheet) all)) sheet) ∧
      drawn_refs new = drop i all.
Proof.
  assert (Hexit : ∀ fuel i out, length all ≤ i →
    ∃ new,
      sheet_loop fuel g docs all i out = Returned (out ++ new) ∧
      (∀ k, k < length new ↔ i + k * perSheet < length all) ∧
      (∀ k sheet, new !! k = Some sheet →
        sheet_of g docs (take perSheet (drop (i + k * perSheet) all)) sheet) ∧
      drawn_refs new = drop i all).
  { intros f i out Hi. exists []. rewrite sheet_loop_unfold.
    apply Nat.ltb_ge in Hi as Hi'. rewrite Hi', app_nil_r.
    split_and!; [done| |done|by rewrite drop_ge].
    intros k. simpl. nia. }
  induction fuel as [|fuel IH]; intros i out Hfuel;
    (destruct (decide (i < length all)) as [Hi|Hi]; [|apply Hexit; lia]).
  - lia.
  - rewrite sheet_loop_unfold. apply Nat.ltb_lt in Hi as Hi'. rewrite Hi'.
    destruct (draw_sheet_spec g docs (take perSheet (drop i all)))
      as (sheet & Hsheet & Hof).
    { intros p Hp. apply all_valid.
      by apply subseteq_take, subseteq_drop in Hp. }
    destruct (IH (i + perSheet) (out ++ [sheet]))
      as (new & Hnew & Hlen & Hlook & Hrefs); [lia|].
    exists (sheet :: new). split_and!.
    + rewrite Hsheet. simpl. rewrite Hnew. by rewrite <- app_assoc.
    + intros [|k]; simpl; [lia|]. specialize (Hlen k). nia.
    + intros [|k] sh; simpl.
      * intros [= <-]. by rewrite Nat.add_0_r.
      * intros Hk. apply Hlook in Hk.
        by replace (i + (perSheet + k * perSheet)) with (i + perSheet + k * perSheet) by lia.
    + rewrite drawn_refs_cons, Hrefs, (sheet_of_sources _ _ _ _ Hof).
      by rewrite <- drop_drop, take_drop.
Qed.

Lemma assemble_spec :
  ∃ out,
    assemble g docs all = Returned out ∧
    (∀ k, k < length out ↔ k * perSheet < length all) ∧
    (∀ k sheet, out !! k = Some sheet →
      sheet_of g docs (take perSheet (drop (k * perSheet) all)) sheet) ∧
    drawn_refs out = all.
Proof.
  destruct (sheet_loop_spec (length all) 0 [])
    as (out & Hout & Hlen & Hlook & Hrefs); [lia|].
  by exists out.
Qed.

End Assembly.

(** ** Counting sheets *)

Lemma ceil_count m n c :
  0 < c → (∀ k, k < m ↔ k * c < n) → m = (n + c - 1) / c.
Proof.
  intros Hc Hm.
  destruct (decide (n = 0)) as [->|Hn].
  - assert (m = 0) as ->.
    { destruct m as [|m]; [done|]. specialize (Hm 0). lia. }
    symmetry. apply Nat.div_small. lia.
  - assert (0 < m) by (apply Hm; lia).
    assert (n ≤ m * c) by (specialize (Hm m); lia).
    assert ((m - 1) * c < n) by (apply Hm; lia).
    apply (Nat.div_unique _ _ _ (n + c - 1 - c * m)); nia.
Qed.



(** Row-major numbering: cell [r * n + c] is in row [r], column [c]. *)
Lemma cell_index (r c n : nat) :
  c < n → (r * n + c) / n = r ∧ (r * n + c) mod n = c.
Proof.
  intros Hc. split.
  - rewrite Nat.div_add_l by lia. rewrite Nat.div_small by lia. lia.
  - rewrite Nat.add_comm, Nat.Div0.mod_add. by apply Nat.mod_small.
Qed.

(** ** Properties of a run *)

Section Run.
Context {num : Type} `{Number num}.
Variable pdf_load : list Byte.byte -> @LoadResult num.

Implicit Types (inputFiles : list InputFile) (options : ImpositionOptions num).

Lemma geometry_perSheet options :
  Geom.cols (geometry options) * Geom.rows (geometry options) = 8.
Proof.
  unfold geometry. destruct (PAPER_SIZES (paper options)) as [w0 h0].
  by destruct (orientation options), (layout options).
Qed.

(** The origin of the cell of row [r], column [c], in any arithmetic,
    binary64 included: the expressions of the source at the index of the
    cell. *)
Lemma cell_origin options (r c : nat) :
  let g := geometry options in
  c < Geom.cols g →
  cell_x g (r * Geom.cols g + c) =
    (Geom.margin g + nnat c * (Geom.cellW g + Geom.gap g))%num ∧
  cell_y g (r * Geom.cols g + c) =
    (Geom.h g - Geom.margin g - nnat (r + 1) * Geom.cellH g
       - nnat r * Geom.gap g)%num.
Proof.
  intros g Hc. unfold cell_x, cell_y.
  destruct (cell_index r c (Geom.cols g) Hc) as [-> ->]. done.
Qed.

Lemma loaded_valid inputFiles p :
  p ∈ allPages (load_all pdf_load inputFiles) →
  is_Some (embedded_ref (arena (load_all pdf_load inputFiles)) p).
Proof.
  rewrite load_all_allPages, load_all_arena.
  intros Hp. apply list_elem_of_lookup in Hp as [pos Hp].
  apply flattened_valid in Hp as (d & Hd & _ & Hlt).
  rewrite Nat.sub_0_r in Hd. unfold embedded_ref. rewrite Hd. simpl.
  destruct (lookup_lt_is_Some_2 (pages d) (pageIndex p) Hlt) as [size ->].
  by eexists.
Qed.

(** The sheet loop of a run returns, and its sheets are those of the chunks
    of [allPages]. *)
Lemma run_assembles inputFiles options :
  let st := load_all pdf_load inputFiles in
  let g := geometry options in
  ∃ out,
    assemble g (arena st) (allPages st) = Returned out ∧
    (∀ k, k < length out ↔ k * 8 < length (allPages st)) ∧
    (∀ k sheet, out !! k = Some sheet →
      sheet_of g (arena st) (take 8 (drop (k * 8) (allPages st))) sheet) ∧
    drawn_refs out = allPages st.
Proof.
  intros st g. subst g.
  destruct (assemble_spec (geometry options) (arena st) (allPages st))
    as (out & Hout & Hspec).
  - rewrite geometry_perSheet. lia.
  - apply loaded_valid.
  - exists out. split; [done|]. by rewrite geometry_perSheet in Hspec.
Qed.




(** *** The validator *)

Lemma byte_is_true (buffer : list Byte.byte) i v :
  byte_is buffer i v = true ↔ buffer !! i = Some v.
Proof.
  unfold byte_is. destruct (buffer !! i) as [b|]; [|done]. split.
  - intros Hb. f_equal. by apply Byte.byte_dec_bl.
  - intros [= ->]. by apply Byte.byte_dec_lb.
Qed.

Lemma isProbablyPdf_true (buffer : list Byte.byte) :
  isProbablyPdf buffer = true ↔ 1024 ≤ length buffer ∧ take 5 buffer = magic.
Proof.
  unfold isProbablyPdf.
  destruct (length buffer <? 1024) eqn:Hlen.
  - apply Nat.ltb_lt in Hlen. split; [done|lia].
  - apply Nat.ltb_ge in Hlen.
    rewrite !andb_true_iff, !byte_is_true.
    destruct buffer as [|b0 [|b1 [|b2 [|b3 [|b4 rest]]]]];
      try (simpl in Hlen; lia).
    unfold magic. split.
    + intros H5. split; [done|]. revert H5. simpl. rewrite take_0.
      intros ((((? & ?) & ?) & ?) & ?). congruence.
    + intros [_ H5]. revert H5. simpl. rewrite take_0.
      intros ?. split_and!; congruence.
Qed.

Lemma isProbablyPdf_false (buffer : list Byte.byte) :
  isProbablyPdf buffer = false ↔ length buffer < 1024 ∨ take 5 buffer ≠ magic.
Proof.
  rewrite <- not_true_iff_false, isProbablyPdf_true. split.
  - intros Hn. destruct (decide (length buffer < 1024)); [by left|right].
    intros Hm. apply Hn. split; [lia|done].
  - intros [?|?] [? ?]; [lia|done].
Qed.

(** C6, as the code has it.  An input is rejected exactly when its buffer
    is shorter than 1024 bytes, or does not start with the bytes of
    [%PDF-], or the parser throws, or the parsed document has no page.  The
    reason recorded is "Not a valid PDF (bad header or too small)" for the
    pre-check, the parser's message for a parse failure, and "0 pages" for
    an empty document.  Any other input is accepted, and the loading loop
    appends its pages; a rejected one adds its record and no page. *)
Theorem validation_contract (buffer : list Byte.byte) :
  let precheck_fails := length buffer < 1024 ∨ take 5 buffer ≠ magic in
  (precheck_fails →
     validate pdf_load buffer = Reject "Not a valid PDF (bad header or too small)") ∧
  (¬ precheck_fails → ∀ message,
     pdf_load buffer = LoadError message →
     validate pdf_load buffer = Reject message) ∧
  (¬ precheck_fails → ∀ d,
     pdf_load buffer = Loaded d → getPageCount d = 0 →
     validate pdf_load buffer = Reject "0 pages") ∧
  (¬ precheck_fails → ∀ d,
     pdf_load buffer = Loaded d → getPageCount d ≠ 0 →
     validate pdf_load buffer = Accept d) ∧
  ((∃ reason, validate pdf_load buffer = Reject reason) ↔
     precheck_fails ∨
     (∃ message, pdf_load buffer = LoadError message) ∨
     (∃ d, pdf_load buffer = Loaded d ∧ getPageCount d = 0)) ∧
  (∀ st file, data file = buffer →
     match validate pdf_load buffer with
     | Reject reason =>
         load_step pdf_load st file =
           {| arena := arena st;
              allPages := allPages st;
              bad := bad st ++ [ {| path := name file; error := reason |} ] |}
     | Accept d =>
         load_step pdf_load st file =
           {| arena := arena st ++ [d];
              allPages := allPages st ++ pages_of (length (arena st)) d;
              bad := bad st |}
     end).
Proof.
  intros precheck_fails. subst precheck_fails.
  rewrite <- isProbablyPdf_false.
  unfold validate.
  destruct (isProbablyPdf buffer) eqn:Hpre; simpl.
  - split_and!; try done.
    + intros _ message ->. done.
    + intros _ d -> ->. done.
    + intros _ d -> Hd. apply Nat.eqb_neq in Hd. by rewrite Hd.
    + destruct (pdf_load buffer) as [message|d] eqn:Hload.
      * split; [|by eauto]. intros _. right. left. by exists message.
      * destruct (getPageCount d =? 0) eqn:Hd.
        -- apply Nat.eqb_eq in Hd. split; [|by eauto].
           intros _. right. right. by exists d.
        -- apply Nat.eqb_neq in Hd. split; [by intros [? ?]|].
           intros [?|[[? ?]|(d' & [= <-] & ?)]]; done.
    + intros st file Hfile. unfold load_step, validate. rewrite Hfile, Hpre. simpl.
      destruct (pdf_load buffer) as [message|d]; [done|].
      by destruct (getPageCount d =? 0).
  - split_and!; try done.
    + split; [by left|by eauto].
    + intros st file Hfile. unfold load_step, validate. by rewrite Hfile, Hpre.
Qed.

(** *** Rejected inputs *)

Lemma length_rejections inputFiles :
  length (rejections pdf_load inputFiles) =
    length (filter (fun file => is_accepted pdf_load file = false) inputFiles).
Proof.
  induction inputFiles as [|file rest IH]; [done|].
  rewrite rejections_omap_cons.
  destruct (is_accepted pdf_load file) eqn:Hacc.
  - rewrite filter_cons_False by congruence. unfold is_accepted in Hacc.
    by destruct (validate pdf_load (data file)).
  - rewrite filter_cons_True by done. unfold is_accepted in Hacc.
    destruct (validate pdf_load (data file)); [done|]. simpl. by rewrite IH.
Qed.

Section Saving.
Variable pdf_save : list (Sheet num) → completion (list Byte.byte).

(** The engine returns whenever the serializer does. *)
Lemma impose8up_returns inputFiles options :
  (∀ out, ∃ bytes, pdf_save out = Returned bytes) →
  ∃ r, impose8up pdf_load pdf_save inputFiles options = Returned r.
Proof.
  intros Hsave. unfold impose8up.
  destruct (length (allPages (load_all pdf_load inputFiles)) =? 0); [by eexists|].
  destruct (run_assembles inputFiles options) as (out & -> & _).
  destruct (Hsave out) as [bytes Hb]. simpl. rewrite Hb. by eexists.
Qed.

(** C8. No valid input.  When every input is rejected (the empty list
    included) the engine returns a failure: [success] is false, an error
    message is set, there are no output bytes, and [total_bad] is the number
    of inputs. *)
Theorem no_valid_input inputFiles options :
  (∀ file, file ∈ inputFiles →
     ∃ reason, validate pdf_load (data file) = Reject reason) →
  ∃ r,
    impose8up pdf_load pdf_save inputFiles options = Returned r ∧
    success r = false ∧
    result_error r = Some "Aucun PDF valide n'a pu être ouvert." ∧
    pdfBytes r = None ∧
    total_bad r = length inputFiles.
Proof.
  intros Hall.
  destruct (rejections_all pdf_load inputFiles) as [Hacc Hrej].
  { intros file Hfile. destruct (Hall file Hfile) as [reason Hr].
    unfold is_accepted. by rewrite Hr. }
  unfold impose8up.
  rewrite load_all_allPages, load_all_bad, Hacc. simpl.
  eexists. split; [reflexivity|]. simpl. by rewrite Hrej.
Qed.

(** C9. The bad-file cap.  In every result the engine returns, [bad_files]
    holds the first min([total_bad], 50) rejection records in input order,
    and [total_bad] is the number of rejected inputs, however many. *)
Theorem bad_files_cap inputFiles options r :
  impose8up pdf_load pdf_save inputFiles options = Returned r →
  bad_files r = take 50 (rejections pdf_load inputFiles) ∧
  length (bad_files r) = total_bad r `min` 50 ∧
  total_bad r = length (rejections pdf_load inputFiles) ∧
  total_bad r =
    length (filter (fun file => is_accepted pdf_load file = false) inputFiles).
Proof.
  unfold impose8up. rewrite load_all_bad, <- length_rejections.
  destruct (_ =? 0).
  - intros [= <-]. simpl. rewrite length_take. split_and!; [done|lia|done|done].
  - intros Hr. apply bind_Returned in Hr as (out & _ & Hr).
    apply bind_Returned in Hr as (bytes & _ & [= <-]). simpl.
    rewrite length_take. split_and!; [done|lia|done|done].
Qed.

(** C7. Rejected inputs leave no trace in the layout.  Running on the list
    with the rejected inputs deleted gives the same arena of documents, the
    same page list and the same sheets, placement for placement, and the
    same outcome but for the record of bad files. *)
Theorem rejected_inputs_do_not_matter inputFiles options :
  let kept := filter (fun file => is_accepted pdf_load file) inputFiles in
  let st := load_all pdf_load inputFiles in
  let st' := load_all pdf_load kept in
  let g := geometry options in
  arena st' = arena st ∧
  allPages st' = allPages st ∧
  bad st' = [] ∧
  assemble g (arena st') (allPages st') = assemble g (arena st) (allPages st) ∧
  on_return (fun r => (success r, pdfBytes r, total_pages r, sheets r, result_error r))
    (impose8up pdf_load pdf_save kept options) =
  on_return (fun r => (success r, pdfBytes r, total_pages r, sheets r, result_error r))
    (impose8up pdf_load pdf_save inputFiles options).
Proof.
  intros kept st st' g.
  assert (Harena : arena st' = arena st).
  { unfold st, st', kept. by rewrite !load_all_arena, accepted_filter. }
  assert (Hpages : allPages st' = allPages st).
  { unfold st, st', kept. by rewrite !load_all_allPages, accepted_filter. }
  split_and!; [done|done| | |].
  - unfold st', kept. by rewrite load_all_bad, rejections_filter.
  - by rewrite Harena, Hpages.
  - unfold impose8up. fold kept st st' g. rewrite Harena, Hpages.
    destruct (length (allPages st) =? 0); [done|].
    destruct (assemble g (arena st) (allPages st)) as [out| |]; simpl; [|done..].
    by destruct (pdf_save out).
Qed.

End Saving.


End Run.

(** ** Geometry and placement in exact arithmetic *)

Section Exact.
Local Open Scope Q_scope.

Implicit Types (options : ImpositionOptions Q) (g : Geom.t Q).

Lemma ofnat_S (n : nat) : ofnat (n + 1) == ofnat n + 1.
Proof.
  unfold ofnat. rewrite Nat2Z.inj_add, inject_Z_plus. reflexivity.
Qed.

(** C3. Geometry.  The sheet has the canonical size of the paper, the two
    lengths swapped in landscape; margin and gap are converted from
    millimetres to points; each axis gives its cells the length
    (sheet length - 2 margin - (cells - 1) gap) / cells, independently; and
    the cell of row [r], column [c] (row-major, from 0) has
    x = margin + c (cellW + gap) and y = h - margin - (r + 1) cellH - r gap,
    so that the top edge of row 0 is the top margin and each row lies
    cellH + gap below the one before. *)
Theorem geometry_formulas options (r c : nat) :
  let g := geometry options in
  let canonical :=
    match paper options with A4 => (595, 842) | A3 => (842, 1191) end in
  let cols := Geom.cols g in
  let rows := Geom.rows g in
  let cell := (r * cols + c)%nat in
  (r < rows)%nat → (c < cols)%nat →
  (Geom.w g, Geom.h g) =
    match orientation options with
    | landscape => (canonical.2, canonical.1)
    | portrait => canonical
    end ∧
  (cols, rows) = match layout options with L4x2 => (4, 2) | L2x4 => (2, 4) end%nat ∧
  Geom.margin g == margin_mm options * (72 / (254 # 10)) ∧
  Geom.gap g == gap_mm options * (72 / (254 # 10)) ∧
  Geom.cellW g ==
    (Geom.w g - 2 * Geom.margin g - (ofnat cols - 1) * Geom.gap g) / ofnat cols ∧
  Geom.cellH g ==
    (Geom.h g - 2 * Geom.margin g - (ofnat rows - 1) * Geom.gap g) / ofnat rows ∧
  cell_x g cell == Geom.margin g + ofnat c * (Geom.cellW g + Geom.gap g) ∧
  cell_y g cell ==
    Geom.h g - Geom.margin g - (ofnat r + 1) * Geom.cellH g - ofnat r * Geom.gap g ∧
  cell_y g c + Geom.cellH g == Geom.h g - Geom.margin g ∧
  cell_y g cell == cell_y g c - ofnat r * (Geom.cellH g + Geom.gap g).
Proof.
  intros g canonical cols rows cell Hr Hc.
  assert (Hcell : ((r * cols + c) / cols = r ∧ (r * cols + c) mod cols = c)%nat)
    by (by apply cell_index).
  assert (Hcell0 : (c / cols = 0 ∧ c mod cols = c)%nat).
  { split; [by apply Nat.div_small|by apply Nat.mod_small]. }
  destruct Hcell as [Hrow Hcol]. destruct Hcell0 as [Hrow0 Hcol0].
  assert (Hy : ∀ j, cell_y g j ==
                 Geom.h g - Geom.margin g
                 - (ofnat (j / cols) + 1) * Geom.cellH g
                 - ofnat (j / cols) * Geom.gap g).
  { intros j. unfold cell_y. simpl. fold cols. fold (ofnat (j / cols)).
    fold (ofnat (j / cols + 1)). rewrite ofnat_S. reflexivity. }
  split_and!.
  - subst g canonical. unfold geometry. simpl.
    by destruct (paper options), (orientation options), (layout options).
  - subst g cols rows. unfold geometry. simpl.
    destruct (PAPER_SIZES (paper options)).
    by destruct (orientation options), (layout options).
  - subst g. unfold geometry. simpl.
    destruct (paper options), (orientation options), (layout options); reflexivity.
  - subst g. unfold geometry. simpl.
    destruct (paper options), (orientation options), (layout options); reflexivity.
  - subst g cols rows. unfold geometry. simpl.
    destruct (paper options), (orientation options), (layout options);
      simpl; unfold ofnat; simpl; field.
  - subst g cols rows. unfold geometry. simpl.
    destruct (paper options), (orientation options), (layout options);
      simpl; unfold ofnat; simpl; field.
  - unfold cell_x, cell. simpl. fold cols. rewrite Hcol. reflexivity.
  - rewrite Hy. unfold cell. rewrite Hrow. reflexivity.
  - rewrite Hy, Hrow0. change (ofnat 0) with 0. ring.
  - rewrite !Hy. unfold cell. rewrite Hrow, Hrow0. change (ofnat 0) with 0. ring.
Qed.



End Exact.

(** ** Concrete runs *)

Example demo_run :
  impose8up demo_load (demo_save Byte.x00) demo_inputs demo_options =
    Returned
      {| success := true;
         pdfBytes := Some (magic ++ [Byte.x00]);
         total_pages := Some 13;
         sheets := Some 2;
         bad_files :=
           [ {| path := "b.pdf"; error := "0 pages" |};
             {| path := "c.pdf"; error := "Not a valid PDF (bad header or too small)" |};
             {| path := "e.pdf"; error := "Failed to parse PDF document" |} ];
         total_bad := 3;
         result_error := None |}.
Proof. vm_compute. reflexivity. Qed.

(** Three one-page inputs and one of three pages on a 4x2 grid: one sheet,
    six placements. *)
Example scenario_six_pages :
  on_return (fun out => (fun sheet => length (placed sheet)) <$> out)
    (assemble (geometry demo_options)
       (arena (load_all demo_load
          [pdf_file "1" Byte.x01; pdf_file "2" Byte.x01;
           pdf_file "3" Byte.x01; pdf_file "4" Byte.x03]))
       (allPages (load_all demo_load
          [pdf_file "1" Byte.x01; pdf_file "2" Byte.x01;
           pdf_file "3" Byte.x01; pdf_file "4" Byte.x03])))
  = Returned [6].
Proof. vm_compute. reflexivity. Qed.

(** Twenty one-page inputs and five with a bad header on a 2x4 grid: three
    sheets, five bad files. *)
Example scenario_twenty_five_inputs :
  on_return (fun r => (sheets r, total_bad r, length (bad_files r)))
    (impose8up demo_load (demo_save Byte.x00)
       (replicate 20 (pdf_file "ok" Byte.x01) ++ replicate 5 (junk_file "bad"))
       {| paper := A4; orientation := portrait; layout := L2x4;
          margin_mm := 6%Q; gap_mm := 3%Q |})
  = Returned (Some 3, 5, 5).
Proof. vm_compute. reflexivity. Qed.

(** Sixty rejected inputs: fifty records, sixty counted. *)
Example scenario_sixty_bad :
  on_return (fun r => (success r, total_bad r, length (bad_files r)))
    (impose8up demo_load (demo_save Byte.x00)
       (replicate 60 (junk_file "bad") ++ [pdf_file "ok" Byte.x01])
       demo_options)
  = Returned (true, 60, 50).
Proof. vm_compute. reflexivity. Qed.



Lemma geometry_formulas_witness :
  (cell_x (geometry demo_options) 6 ==
     Geom.margin (geometry demo_options)
     + 2 * (Geom.cellW (geometry demo_options) + Geom.gap (geometry demo_options)))%Q.
Proof.
  destruct (geometry_formulas demo_options 1 2) as (_ & _ & _ & _ & _ & _ & Hx & _).
  - vm_compute. lia.
  - vm_compute. lia.
  - exact Hx.
Defined.


(** *** Where the claims and the code part *)


(** C6 as stated fails on the words of the pre-check's reason: the code
    says "PDF" where the claim says "document". *)
Lemma precheck_reason_names_pdf :
  length (@nil Byte.byte) < 1024 ∧
  validate (num:=Q) demo_load [] =
    Reject "Not a valid PDF (bad header or too small)" ∧
  validate (num:=Q) demo_load [] ≠
    Reject "Not a valid document (bad header or too small)".
Proof.
  split_and!; [vm_compute; lia|reflexivity|discriminate].
Qed.

Lemma no_valid_input_witness :
  ∃ r,
    impose8up (num:=Q) demo_load (demo_save Byte.x00)
      [junk_file "x"; pdf_file "y" Byte.xff; pdf_file "z" Byte.x00] demo_options
      = Returned r ∧
    success r = false ∧ total_bad r = 3.
Proof.
  destruct (no_valid_input (num:=Q) demo_load (demo_save Byte.x00)
              [junk_file "x"; pdf_file "y" Byte.xff; pdf_file "z" Byte.x00]
              demo_options)
    as (r & Hr & Hs & _ & _ & Hbad).
  - intros file Hfile.
    apply elem_of_cons in Hfile as [->|Hfile]; [eexists; vm_compute; reflexivity|].
    apply elem_of_cons in Hfile as [->|Hfile]; [eexists; vm_compute; reflexivity|].
    apply elem_of_cons in Hfile as [->|Hfile]; [eexists; vm_compute; reflexivity|].
    by apply elem_of_nil in Hfile.
  - exists r. split_and!; [exact Hr|exact Hs|exact Hbad].
Defined.

Lemma bad_files_cap_witness :
  ∃ r,
    impose8up demo_load (demo_save Byte.x00) demo_inputs demo_options = Returned r ∧
    bad_files r = take 50 (rejections (num:=Q) demo_load demo_inputs) ∧
    total_bad r = length (rejections (num:=Q) demo_load demo_inputs).
Proof.
  eexists. split; [vm_compute; reflexivity|].
  destruct (bad_files_cap demo_load (demo_save Byte.x00) demo_inputs demo_options
              _ demo_run) as (Hbad & _ & Htotal & _).
  split; [exact Hbad|exact Htotal].
Defined.


(** ** More on the engine *)

Section MoreLoading.
Context {num : Type} `{Number num}.
Variable pdf_load : list Byte.byte -> @LoadResult num.
Implicit Types (d : OpenedDocument num) (docs ds : list (OpenedDocument num)).
Implicit Types (inputFiles : list InputFile) (options : ImpositionOptions num).

Lemma accepted_app inputFiles1 inputFiles2 :
  accepted pdf_load (inputFiles1 ++ inputFiles2) =
    accepted pdf_load inputFiles1 ++ accepted pdf_load inputFiles2.
Proof. unfold accepted. by rewrite omap_app. Qed.

Lemma rejections_app inputFiles1 inputFiles2 :
  rejections pdf_load (inputFiles1 ++ inputFiles2) =
    rejections pdf_load inputFiles1 ++ rejections pdf_load inputFiles2.
Proof. unfold rejections. by rewrite omap_app. Qed.

Lemma kept_or_recorded inputFiles :
  length (accepted pdf_load inputFiles) + length (rejections pdf_load inputFiles)
    = length inputFiles.
Proof.
  induction inputFiles as [|file rest IH]; [done|].
  rewrite accepted_omap_cons, rejections_omap_cons.
  destruct (validate pdf_load (data file)); simpl; lia.
Qed.

Lemma rejections_paths inputFiles :
  path <$> rejections pdf_load inputFiles =
    name <$> filter (fun file => is_accepted pdf_load file = false) inputFiles.
Proof.
  induction inputFiles as [|file rest IH]; [done|].
  rewrite rejections_omap_cons.
  destruct (is_accepted pdf_load file) eqn:Hacc.
  - rewrite filter_cons_False by congruence. unfold is_accepted in Hacc.
    by destruct (validate pdf_load (data file)).
  - rewrite filter_cons_True by done. unfold is_accepted in Hacc.
    destruct (validate pdf_load (data file)); [done|].
    by rewrite !fmap_cons, IH.
Qed.

Lemma none_accepted inputFiles :
  accepted pdf_load inputFiles = [] ↔
  ∀ file, file ∈ inputFiles → is_accepted pdf_load file = false.
Proof.
  split.
  - induction inputFiles as [|file rest IH]; intros Hacc f Hf.
    + by apply elem_of_nil in Hf.
    + rewrite accepted_omap_cons in Hacc.
      apply elem_of_cons in Hf as [->|Hf].
      * unfold is_accepted. by destruct (validate pdf_load (data file)).
      * apply IH; [|done]. by destruct (validate pdf_load (data file)).
  - intros Hall. by apply rejections_all.
Qed.

Lemma flattened_shift h0 docs :
  flattened h0 docs =
    (fun p => {| doc := h0 + doc p; pageIndex := pageIndex p |}) <$> flattened 0 docs.
Proof.
  revert h0. induction docs as [|d ds IH]; intros h0; simpl; [done|].
  rewrite fmap_app, (IH (S h0)), (IH 1). f_equal.
  - unfold pages_of. rewrite <- list_fmap_compose. apply list_fmap_ext.
    intros _ i _. simpl. by rewrite Nat.add_0_r.
  - rewrite <- list_fmap_compose. apply list_fmap_ext.
    intros _ p _. simpl. f_equal. lia.
Qed.

Lemma flattened_app h0 ds1 ds2 :
  flattened h0 (ds1 ++ ds2) = flattened h0 ds1 ++ flattened (h0 + length ds1) ds2.
Proof.
  revert h0. induction ds1 as [|d ds1 IH]; intros h0; simpl.
  - by rewrite Nat.add_0_r.
  - rewrite IH, <- app_assoc. do 3 f_equal. lia.
Qed.



(** X1. Every input is accounted for: it is either opened and kept, or
    recorded as a bad file, never both and never neither.  The records carry
    the names of the rejected files, in input order; a returned result
    counts them all and lists the first fifty of those names. *)
Theorem every_input_is_kept_or_recorded inputFiles :
  let st := load_all pdf_load inputFiles in
  let rejected := filter (fun file => is_accepted pdf_load file = false) inputFiles in
  length (arena st) + length (bad st) = length inputFiles ∧
  length (arena st) =
    length (filter (fun file => is_accepted pdf_load file = true) inputFiles) ∧
  path <$> bad st = name <$> rejected ∧
  ∀ pdf_save options r,
    impose8up pdf_load pdf_save inputFiles options = Returned r →
    total_bad r + length (arena st) = length inputFiles ∧
    path <$> bad_files r = take 50 (name <$> rejected).
Proof.
  intros st rejected. subst st rejected.
  rewrite load_all_arena, load_all_bad.
  pose proof (kept_or_recorded inputFiles) as Hsum.
  pose proof (length_rejections pdf_load inputFiles) as Hrej.
  assert (Hparts : length (filter (fun file => is_accepted pdf_load file = true) inputFiles)
            + length (filter (fun file => is_accepted pdf_load file = false) inputFiles)
            = length inputFiles).
  { clear. induction inputFiles as [|file rest IH]; [done|].
    rewrite !filter_cons. destruct (is_accepted pdf_load file); simpl; lia. }
  split_and!; [done|lia|apply rejections_paths|].
  intros pdf_save options r Hr.
  assert (bad_files r = take 50 (rejections pdf_load inputFiles) ∧
          total_bad r = length (rejections pdf_load inputFiles)) as [-> ->].
  { revert Hr. unfold impose8up. rewrite load_all_bad. destruct (_ =? 0).
    - by intros [= <-].
    - intros Hr. apply bind_Returned in Hr as (out & _ & Hr).
      by apply bind_Returned in Hr as (bytes & _ & [= <-]). }
  split; [lia|]. by rewrite fmap_take, rejections_paths.
Qed.

(** X2. The run fails exactly when nothing could be opened: a returned
    result has [success = false] if and only if every input was rejected,
    if and only if [total_bad] is the number of inputs, if and only if it
    carries no bytes. *)
Theorem fails_exactly_when_nothing_is_accepted
    (pdf_save : list (Sheet num) → completion (list Byte.byte))
    inputFiles options r :
  impose8up pdf_load pdf_save inputFiles options = Returned r →
  (success r = false ↔
     ∀ file, file ∈ inputFiles → is_accepted pdf_load file = false) ∧
  (success r = false ↔ total_bad r = length inputFiles) ∧
  (success r = false ↔ pdfBytes r = None) ∧
  (success r = false ↔ result_error r ≠ None).
Proof.
  unfold impose8up. rewrite load_all_bad.
  pose proof (kept_or_recorded inputFiles) as Hsum.
  pose proof (no_page_iff_none_accepted pdf_load inputFiles) as Hnone.
  rewrite <- none_accepted.
  destruct (_ =? 0) eqn:HN.
  - apply Nat.eqb_eq in HN. apply Hnone in HN. intros [= <-]. simpl.
    rewrite HN in Hsum. simpl in Hsum. by split_and!.
  - apply Nat.eqb_neq in HN. intros Hr.
    apply bind_Returned in Hr as (out & _ & Hr).
    apply bind_Returned in Hr as (bytes & _ & [= <-]). simpl.
    assert (accepted pdf_load inputFiles ≠ []) as Hne by (by rewrite <- Hnone).
    destruct (accepted pdf_load inputFiles) as [|d ds]; [done|]. simpl in Hsum.
    split_and!; split; try done; intros; lia.
Qed.

(** X3. What a success reports: at least one page, as many pages as the
    accepted documents have together, ceil(pages / 8) sheets, hence at
    least one sheet, no more sheets than pages and no more than eight pages
    per sheet; the bytes of the serializer; no error; and fewer bad files
    than inputs. *)
Theorem success_report
    (pdf_save : list (Sheet num) → completion (list Byte.byte))
    inputFiles options r :
  impose8up pdf_load pdf_save inputFiles options = Returned r →
  success r = true →
  ∃ N out bytes,
    total_pages r = Some N ∧
    N = sum_list (getPageCount <$> accepted pdf_load inputFiles) ∧
    sheets r = Some ((N + 7) / 8) ∧
    1 ≤ (N + 7) / 8 ∧ (N + 7) / 8 ≤ N ∧ N ≤ 8 * ((N + 7) / 8) ∧
    assemble (geometry options) (arena (load_all pdf_load inputFiles))
      (allPages (load_all pdf_load inputFiles)) = Returned out ∧
    pdf_save out = Returned bytes ∧
    pdfBytes r = Some bytes ∧
    result_error r = None ∧
    total_bad r < length inputFiles.
Proof.
  unfold impose8up.
  pose proof (kept_or_recorded inputFiles) as Hsum.
  pose proof (no_page_iff_none_accepted pdf_load inputFiles) as Hnone.
  pose proof (run_assembles pdf_load inputFiles options) as Hrun.
  cbv zeta in Hrun. destruct Hrun as (out & Hout & Hlen & _).
  rewrite load_all_bad.
  destruct (_ =? 0) eqn:HN; [by intros [= <-]|].
  apply Nat.eqb_neq in HN. rewrite Hout.
  change (Returned out ≫= ?f) with (f out). cbv beta. intros Hr _.
  apply bind_Returned in Hr as (bytes & Hsave & [= <-]).
  cbn [success pdfBytes total_pages sheets result_error total_bad bad_files].
  set (N := length (allPages (load_all pdf_load inputFiles))) in *.
  assert (Hcount : length out = (N + 8 - 1) / 8) by (apply ceil_count; [lia|done]).
  replace (N + 8 - 1) with (N + 7) in Hcount by lia.
  assert (0 < length out) by (apply Hlen; lia).
  assert ((length out - 1) * 8 < N) by (apply Hlen; lia).
  assert (N ≤ length out * 8) by (specialize (Hlen (length out)); lia).
  exists N, out, bytes. rewrite <- Hcount.
  split_and!; try done; try lia.
  - unfold N. by rewrite load_all_allPages, length_flattened.
  - assert (accepted pdf_load inputFiles ≠ []) as Hne by (by rewrite <- Hnone).
    destruct (accepted pdf_load inputFiles); [done|]. simpl in Hsum. lia.
Qed.


(** X5. Loading composes: the state after a list of inputs followed by
    another is the state after the first, extended by the state after the
    second with its handles moved past the documents of the first. *)
Theorem loading_composes inputFiles1 inputFiles2 :
  let st1 := load_all pdf_load inputFiles1 in
  let st2 := load_all pdf_load inputFiles2 in
  let st := load_all pdf_load (inputFiles1 ++ inputFiles2) in
  arena st = arena st1 ++ arena st2 ∧
  bad st = bad st1 ++ bad st2 ∧
  allPages st =
    allPages st1 ++
    ((fun p => {| doc := length (arena st1) + doc p; pageIndex := pageIndex p |})
       <$> allPages st2).
Proof.
  intros st1 st2 st. subst st1 st2 st.
  rewrite !load_all_arena, !load_all_bad, !load_all_allPages.
  rewrite accepted_app, rejections_app, flattened_app. simpl.
  split_and!; [done|done|]. by rewrite <- flattened_shift.
Qed.

(** X6. No blank sheet: every sheet the assembler returns has the size of
    the paper in the chosen orientation and holds at least one page and at
    most eight. *)
Theorem no_blank_sheet inputFiles options out k sheet :
  assemble (geometry options) (arena (load_all pdf_load inputFiles))
    (allPages (load_all pdf_load inputFiles)) = Returned out →
  out !! k = Some sheet →
  (sheet_w sheet, sheet_h sheet) =
    match orientation options with
    | landscape => ((PAPER_SIZES (paper options)).2, (PAPER_SIZES (paper options)).1)
    | portrait => PAPER_SIZES (paper options)
    end ∧
  1 ≤ length (placed sheet) ≤ 8.
Proof.
  intros Hout Hk.
  pose proof (run_assembles pdf_load inputFiles options) as Hrun.
  cbv zeta in Hrun. destruct Hrun as (out' & Hout' & Hlen & Hlook & _).
  assert (out' = out) as -> by congruence.
  destruct (Hlook _ _ Hk) as (-> & -> & -> & _).
  pose proof (lookup_lt_Some _ _ _ Hk) as Hklt. apply Hlen in Hklt.
  split.
  - unfold geometry. destruct (PAPER_SIZES (paper options)) as [w0 h0].
    by destruct (orientation options), (layout options).
  - rewrite length_take, length_drop. lia.
Qed.

End MoreLoading.


(** ** More on the geometry, in exact arithmetic *)

Section MoreExact.
Local Open Scope Q_scope.

Implicit Types (options : ImpositionOptions Q) (g : Geom.t Q).

(** The grid and the equations of the cell sizes, cleared of divisions. *)
Lemma geometry_equations options :
  let g := geometry options in
  ((Geom.cols g, Geom.rows g) = (4, 2)%nat ∧
   4 * Geom.cellW g == Geom.w g - 2 * Geom.margin g - 3 * Geom.gap g ∧
   2 * Geom.cellH g == Geom.h g - 2 * Geom.margin g - Geom.gap g
   ∨
   (Geom.cols g, Geom.rows g) = (2, 4)%nat ∧
   2 * Geom.cellW g == Geom.w g - 2 * Geom.margin g - Geom.gap g ∧
   4 * Geom.cellH g == Geom.h g - 2 * Geom.margin g - 3 * Geom.gap g) ∧
  Geom.margin g == margin_mm options * (360 # 127) ∧
  Geom.gap g == gap_mm options * (360 # 127).
Proof.
  unfold geometry. simpl.
  destruct (paper options), (orientation options), (layout options); simpl;
    (split; [first [left; split_and!; [done|field|field]
                   |right; split_and!; [done|field|field]]
            |split; field]).
Qed.

Lemma cell_of_index (j cols rows : nat) :
  (0 < cols)%nat → (j < cols * rows)%nat →
  (j mod cols < cols)%nat ∧ (j / cols < rows)%nat.
Proof.
  intros Hc Hj. split.
  - apply Nat.mod_upper_bound. lia.
  - apply Nat.Div0.div_lt_upper_bound. lia.
Qed.

(** The cell of index [j] lies between the margins. *)
Lemma cell_in_box options (j : nat) :
  let g := geometry options in
  0 <= gap_mm options → 0 <= Geom.cellW g → 0 <= Geom.cellH g →
  (j < Geom.cols g * Geom.rows g)%nat →
  Geom.margin g <= cell_x g j ∧
  cell_x g j + Geom.cellW g <= Geom.w g - Geom.margin g ∧
  Geom.margin g <= cell_y g j ∧
  cell_y g j + Geom.cellH g <= Geom.h g - Geom.margin g.
Proof.
  intros g Hgap HcW HcH Hj.
  destruct (geometry_equations options) as (Hgrid & _ & Hg). fold g in Hgrid, Hg.
  assert (0 <= Geom.gap g) by (rewrite Hg; apply Qmult_le_0_compat; [done|by compute]).
  unfold cell_x, cell_y.
  destruct Hgrid as [([= Hc Hr] & HW & HH)|([= Hc Hr] & HW & HH)];
    rewrite Hc, Hr in *;
    do 8 (destruct j as [|j]; [numerals; split_and!; lra|]);
    simpl in Hj; lia.
Qed.

(** X8. The grid fills the box between the margins: the first cell starts
    at the left margin and ends at the top margin, the last cell ends at the
    right margin and starts at the bottom margin, and when the gap and the
    cell sizes are not negative every cell lies between the four margins. *)
Theorem grid_fills_the_margin_box options :
  let g := geometry options in
  let last := (Geom.cols g * Geom.rows g - 1)%nat in
  cell_x g 0 == Geom.margin g ∧
  cell_y g 0 + Geom.cellH g == Geom.h g - Geom.margin g ∧
  cell_x g last + Geom.cellW g == Geom.w g - Geom.margin g ∧
  cell_y g last == Geom.margin g ∧
  (0 <= gap_mm options → 0 <= Geom.cellW g → 0 <= Geom.cellH g →
   ∀ j, (j < Geom.cols g * Geom.rows g)%nat →
     Geom.margin g <= cell_x g j ∧
     cell_x g j + Geom.cellW g <= Geom.w g - Geom.margin g ∧
     Geom.margin g <= cell_y g j ∧
     cell_y g j + Geom.cellH g <= Geom.h g - Geom.margin g).
Proof.
  intros g last.
  destruct (geometry_equations options) as (Hgrid & _ & _). fold g in Hgrid.
  split_and!; [| | | |by intros ? ? ? j ?; apply cell_in_box];
    subst last; unfold cell_x, cell_y;
    destruct Hgrid as [([= Hc Hr] & HW & HH)|([= Hc Hr] & HW & HH)];
    rewrite ?Hc, ?Hr; numerals; lra.
Qed.

(** X9. Cells do not overlap: when the gap and the cell sizes are not
    negative, two different cells of the grid are side by side or one above
    the other, with at least the gap between them. *)
Theorem cells_do_not_overlap options (j1 j2 : nat) :
  let g := geometry options in
  0 <= gap_mm options → 0 <= Geom.cellW g → 0 <= Geom.cellH g →
  (j1 < Geom.cols g * Geom.rows g)%nat →
  (j2 < Geom.cols g * Geom.rows g)%nat →
  j1 ≠ j2 →
  cell_x g j1 + Geom.cellW g + Geom.gap g <= cell_x g j2 ∨
  cell_x g j2 + Geom.cellW g + Geom.gap g <= cell_x g j1 ∨
  cell_y g j1 + Geom.cellH g + Geom.gap g <= cell_y g j2 ∨
  cell_y g j2 + Geom.cellH g + Geom.gap g <= cell_y g j1.
Proof.
  intros g Hgap HcW HcH Hj1 Hj2 Hne.
  destruct (geometry_equations options) as (Hgrid & _ & Hg). fold g in Hgrid, Hg.
  assert (0 <= Geom.gap g) by (rewrite Hg; apply Qmult_le_0_compat; [done|by compute]).
  unfold cell_x, cell_y.
  destruct Hgrid as [([= Hc Hr] & _)|([= Hc Hr] & _)];
    rewrite Hc, Hr in *;
    do 8 (destruct j1 as [|j1];
          [do 8 (destruct j2 as [|j2];
                 [try done; numerals;
                  first [left; lra | right; left; lra
                        | right; right; left; lra | right; right; right; lra]|]);
           simpl in Hj2; lia|]);
    simpl in Hj1; lia.
Qed.

(** X10. Which valid options give real cells: with margin and gap between
    0 and 50 mm, the cells have a positive width and height on A3 paper, and
    on A4 paper when the four cells of a row or column run along the long
    side (landscape 4x2, portrait 2x4). *)
Theorem valid_options_give_cells options :
  let g := geometry options in
  0 <= margin_mm options <= 50 →
  0 <= gap_mm options <= 50 →
  paper options = A3 ∨
  (orientation options = landscape ∧ layout options = L4x2) ∨
  (orientation options = portrait ∧ layout options = L2x4) →
  0 < Geom.cellW g ∧ 0 < Geom.cellH g.
Proof.
  intros g [Hm0 Hm50] [Hg0 Hg50] Hcase. subst g. unfold geometry. simpl.
  assert (HK : inject_Z (Z.of_nat 72) / (254 # 10) == 360 # 127)
    by (vm_compute; reflexivity).
  destruct (paper options), (orientation options), (layout options);
    simpl; try (destruct Hcase as [?|[[? ?]|[? ?]]]; discriminate);
    split; apply Qlt_shift_div_l; try (by compute);
    rewrite HK; numerals; lra.
Qed.

(** The placement is inside its cell. *)
Lemma place_in_cell g (j : nat) (ep : EmbeddedPage Q) :
  let pl := place g j ep in
  0 < width ep → 0 < height ep →
  (cell_x g j <= at_x pl ∧ at_x pl + drawn_width pl <= cell_x g j + Geom.cellW g) ∧
  (cell_y g j <= at_y pl ∧ at_y pl + drawn_height pl <= cell_y g j + Geom.cellH g).
Proof.
  intros pl Hw Hh.
  assert (Hw0 : ¬ width ep == 0) by (intros E; rewrite E in Hw; by apply Qlt_irrefl in Hw).
  assert (Hh0 : ¬ height ep == 0) by (intros E; rewrite E in Hh; by apply Qlt_irrefl in Hh).
  set (s := Qmin (Geom.cellW g / width ep) (Geom.cellH g / height ep)).
  assert (Hdw : drawn_width pl = width ep * s) by reflexivity.
  assert (Hdh : drawn_height pl = height ep * s) by reflexivity.
  assert (Hx : at_x pl = cell_x g j + (Geom.cellW g - drawn_width pl) / 2) by reflexivity.
  assert (Hy : at_y pl = cell_y g j + (Geom.cellH g - drawn_height pl) / 2) by reflexivity.
  assert (Hfw : drawn_width pl <= Geom.cellW g).
  { rewrite Hdw.
    assert (width ep * (Geom.cellW g / width ep) == Geom.cellW g) as <- by (field; done).
    apply Qmult_le_l; [done|apply Q.le_min_l]. }
  assert (Hfh : drawn_height pl <= Geom.cellH g).
  { rewrite Hdh.
    assert (height ep * (Geom.cellH g / height ep) == Geom.cellH g) as <- by (field; done).
    apply Qmult_le_l; [done|apply Q.le_min_r]. }
  rewrite Hx, Hy. halve. split_and!; lra.
Qed.

(** X11. A drawn page stays on the printable part of the sheet: for a page
    of positive size in a cell of the grid, with a gap and cell sizes that
    are not negative, the drawn rectangle lies between the four margins of
    the sheet. *)
Theorem drawn_page_within_margins options (j : nat) (ep : EmbeddedPage Q) :
  let g := geometry options in
  let pl := place g j ep in
  0 <= gap_mm options → 0 <= Geom.cellW g → 0 <= Geom.cellH g →
  (j < Geom.cols g * Geom.rows g)%nat →
  0 < width ep → 0 < height ep →
  Geom.margin g <= at_x pl ∧
  at_x pl + drawn_width pl <= Geom.w g - Geom.margin g ∧
  Geom.margin g <= at_y pl ∧
  at_y pl + drawn_height pl <= Geom.h g - Geom.margin g.
Proof.
  intros g pl Hgap HcW HcH Hj Hw Hh.
  pose proof (cell_in_box options j Hgap HcW HcH Hj) as Hcell.
  pose proof (place_in_cell g j ep Hw Hh) as Hplace.
  cbv zeta in Hcell, Hplace. subst pl g.
  destruct Hcell as (? & ? & ? & ?). destruct Hplace as [[? ?] [? ?]].
  split_and!; lra.
Qed.

(** X12. The scale is the largest that fits: any factor that keeps a page
    of positive size within the width and the height of the cell gives a
    size no larger than the one drawn. *)
Theorem scale_is_the_largest_that_fits g (j : nat) (ep : EmbeddedPage Q) (t : Q) :
  let pl := place g j ep in
  0 < width ep → 0 < height ep →
  width ep * t <= Geom.cellW g →
  height ep * t <= Geom.cellH g →
  width ep * t <= drawn_width pl ∧ height ep * t <= drawn_height pl.
Proof.
  intros pl Hw Hh HtW HtH.
  assert (Hw0 : ¬ width ep == 0) by (intros E; rewrite E in Hw; by apply Qlt_irrefl in Hw).
  assert (Hh0 : ¬ height ep == 0) by (intros E; rewrite E in Hh; by apply Qlt_irrefl in Hh).
  assert (Ht : t <= Qmin (Geom.cellW g / width ep) (Geom.cellH g / height ep)).
  { apply Q.min_glb; apply Qle_shift_div_l; try done; by rewrite Qmult_comm. }
  split; apply Qmult_le_l; done.
Qed.

(** X13. Only the proportions of a page matter: the same page given [k]
    times as large (k > 0) is drawn at the same place with the same size. *)
Theorem drawn_size_depends_on_proportions g (j : nat) (ep : EmbeddedPage Q) (k : Q) :
  let ep' := {| source := source ep; width := k * width ep; height := k * height ep |} in
  0 < k → 0 < width ep → 0 < height ep →
  drawn_width (place g j ep') == drawn_width (place g j ep) ∧
  drawn_height (place g j ep') == drawn_height (place g j ep) ∧
  at_x (place g j ep') == at_x (place g j ep) ∧
  at_y (place g j ep') == at_y (place g j ep).
Proof.
  intros ep' Hk Hw Hh.
  assert (Hk0 : ¬ k == 0) by (intros E; rewrite E in Hk; by apply Qlt_irrefl in Hk).
  assert (Hw0 : ¬ width ep == 0) by (intros E; rewrite E in Hw; by apply Qlt_irrefl in Hw).
  assert (Hh0 : ¬ height ep == 0) by (intros E; rewrite E in Hh; by apply Qlt_irrefl in Hh).
  set (a := Geom.cellW g / width ep). set (b := Geom.cellH g / height ep).
  assert (Ha : Geom.cellW g / (k * width ep) == a / k) by (unfold a; field; done).
  assert (Hb : Geom.cellH g / (k * height ep) == b / k) by (unfold b; field; done).
  assert (Hmin : Qmin (Geom.cellW g / (k * width ep)) (Geom.cellH g / (k * height ep))
                 == Qmin a b / k).
  { rewrite Ha, Hb. destruct (Qlt_le_dec b a) as [Hlt|Hle].
    - rewrite !Q.min_r; [reflexivity|by apply Qlt_le_weak|].
      apply Qlt_le_weak. unfold Qdiv. apply Qmult_lt_compat_r; [|done].
      by apply Qinv_lt_0_compat.
    - rewrite !Q.min_l; [reflexivity|done|].
      unfold Qdiv. apply Qmult_le_compat_r; [done|].
      apply Qlt_le_weak. by apply Qinv_lt_0_compat. }
  assert (HW : drawn_width (place g j ep') == drawn_width (place g j ep)).
  { change (k * width ep * Qmin (Geom.cellW g / (k * width ep))
                                (Geom.cellH g / (k * height ep))
            == width ep * Qmin a b).
    rewrite Hmin. field. done. }
  assert (HH : drawn_height (place g j ep') == drawn_height (place g j ep)).
  { change (k * height ep * Qmin (Geom.cellW g / (k * width ep))
                                 (Geom.cellH g / (k * height ep))
            == height ep * Qmin a b).
    rewrite Hmin. field. done. }
  split_and!; [done|done| |].
  - change (cell_x g j + (Geom.cellW g - drawn_width (place g j ep')) / 2
            == cell_x g j + (Geom.cellW g - drawn_width (place g j ep)) / 2).
    by rewrite HW.
  - change (cell_y g j + (Geom.cellH g - drawn_height (place g j ep')) / 2
            == cell_y g j + (Geom.cellH g - drawn_height (place g j ep)) / 2).
    by rewrite HH.
Qed.

(** X14. Turning the sheet and the grid together transposes the geometry:
    with the other orientation and the other layout, the width and the
    height of the sheet change places, and so do the columns and the rows,
    and the width and the height of a cell. *)
Theorem turning_transposes_the_geometry options :
  let turned :=
    {| paper := paper options;
       orientation :=
         match orientation options with landscape => portrait | portrait => landscape end;
       layout := match layout options with L4x2 => L2x4 | L2x4 => L4x2 end;
       margin_mm := margin_mm options; gap_mm := gap_mm options |} in
  let g := geometry options in
  let g' := geometry turned in
  Geom.w g' = Geom.h g ∧ Geom.h g' = Geom.w g ∧
  Geom.cols g' = Geom.rows g ∧ Geom.rows g' = Geom.cols g ∧
  Geom.cellW g' == Geom.cellH g ∧ Geom.cellH g' == Geom.cellW g ∧
  Geom.margin g' = Geom.margin g ∧ Geom.gap g' = Geom.gap g.
Proof.
  intros turned g g'. subst turned g g'. unfold geometry. simpl.
  destruct (paper options), (orientation options), (layout options);
    simpl; split_and!; reflexivity.
Qed.

End MoreExact.

(** ** The upload form *)

Section Selection.
Local Open Scope nat_scope.

(** Filtering on the index removes one element. *)
Lemma filter_index_ne {A} (l : list A) (k index : nat) :
  snd <$> filter (fun p => p.1 ≠ index) (imap (fun i x => (k + i, x)) l) =
    if decide (k ≤ index) then take (index - k) l ++ drop (S (index - k)) l else l.
Proof.
  revert k. induction l as [|x l IH]; intros k.
  - rewrite take_nil, drop_nil. by case_decide.
  - rewrite imap_cons.
    assert (E : imap ((fun i x => (k + i, x)) ∘ S) l
                = imap (fun i x => (S k + i, x)) l)
      by (apply imap_ext; intros; simpl; f_equal; lia).
    rewrite E, filter_cons. cbn [fst]. rewrite Nat.add_0_r.
    specialize (IH (S k)).
    destruct (decide (k ≠ index)) as [Hne|Heq].
    + rewrite fmap_cons, IH. cbn [snd].
      destruct (decide (S k ≤ index)), (decide (k ≤ index)); try lia; [|done].
      replace (index - k) with (S (index - S k)) by lia. done.
    + assert (k = index) as -> by (destruct (decide (k = index)); [done|by destruct Heq]).
      rewrite IH. rewrite decide_False by lia. rewrite decide_True by lia.
      by rewrite Nat.sub_diag.
Qed.

Lemma filter_index l index :
  snd <$> filter (fun p : nat * File => p.1 ≠ index) (imap pair l) =
    take index l ++ drop (S index) l.
Proof.
  rewrite (imap_ext _ (fun i x => (0 + i, x))) by done.
  rewrite filter_index_ne, decide_True by lia. by rewrite Nat.sub_0_r.
Qed.

(** X15. Removing a file removes the one at the index and nothing else:
    the files before it and after it stay in order; an index past the end
    changes nothing; the rest of the state is untouched. *)
Theorem removeFile_removes_exactly_one (index : nat) (s : Page.State) :
  let s' := Page.removeFile index s in
  Page.files s' = take index (Page.files s) ++ drop (S index) (Page.files s) ∧
  (∀ i, i < index → Page.files s' !! i = Page.files s !! i) ∧
  (∀ i, index ≤ i → Page.files s' !! i = Page.files s !! (S i)) ∧
  length (Page.files s') =
    (if decide (index < length (Page.files s))
     then length (Page.files s) - 1 else length (Page.files s)) ∧
  (length (Page.files s) ≤ index → s' = s).
Proof.
  intros s'.
  assert (Hfiles : Page.files s' =
                   take index (Page.files s) ++ drop (S index) (Page.files s))
    by apply filter_index.
  split_and!; [done| | | |].
  - intros i Hi. rewrite Hfiles.
    destruct (decide (i < length (Page.files s))) as [Hlt|Hge].
    + rewrite lookup_app_l by (rewrite length_take; lia). by apply lookup_take_lt.
    + rewrite !lookup_ge_None_2; [done|lia|].
      rewrite length_app, length_take, length_drop. lia.
  - intros i Hi. rewrite Hfiles.
    destruct (decide (index ≤ length (Page.files s))) as [Hle|Hgt].
    + rewrite lookup_app_r by (rewrite length_take; lia).
      rewrite length_take, lookup_drop. f_equal. lia.
    + rewrite !lookup_ge_None_2; [done|lia|].
      rewrite length_app, length_take, length_drop. lia.
  - rewrite Hfiles, length_app, length_take, length_drop. case_decide; lia.
  - intros Hlen. destruct s as [fs ? ? ? ? ?]. unfold s', Page.removeFile.
    simpl in *. f_equal. rewrite filter_index.
    by rewrite take_ge, drop_ge, app_nil_r by lia.
Qed.

Lemma addFiles_ok newFiles s : selection_ok s → selection_ok (Page.addFiles newFiles s).
Proof.
  intros [Hlen Hpdf]. unfold Page.addFiles.
  destruct (length _ =? 0); [done|].
  unfold selection_ok. simpl.
  destruct (800 <? length _) eqn:Hcap; [done|]. apply Nat.ltb_ge in Hcap.
  split; [done|]. apply Forall_app. split; [done|].
  apply Forall_forall. intros f Hf. apply list_elem_of_filter in Hf as [Hf _].
  by apply Is_true_true.
Qed.

Lemma step_ok s e : selection_ok s → selection_ok (Page.step s e).
Proof.
  intros Hs. destruct e as [[l|]| | | |[l|]|index]; simpl.
  - by apply addFiles_ok.
  - done.
  - done.
  - done.
  - done.
  - apply addFiles_ok. destruct Hs. by split.
  - done.
  - destruct Hs as [Hlen Hpdf]. unfold selection_ok. simpl. rewrite filter_index.
    split.
    + rewrite length_app, length_take, length_drop. lia.
    + apply Forall_app. split; [by apply Forall_take|by apply Forall_drop].
Qed.

(** X16. The selection of the form stays within its limits whatever the
    user does: after any sequence of choosing, dropping and removing files
    (and of drag movements) it holds at most 800 files, each of them a PDF
    by its type or by its name.  In the first version of the page, where a
    choice replaces the selection, it holds at most 800 files. *)
Theorem selection_stays_within_limits
    (events : list Page.Event) (events1 : list PageV1.Event) :
  length (Page.files (foldl Page.step Page.initial events)) ≤ 800 ∧
  Forall (fun f => String.eqb (file_type f) "application/pdf" = true ∨
                   endsWith (file_name f) ".pdf" = true)
         (Page.files (foldl Page.step Page.initial events)) ∧
  length (PageV1.files (foldl PageV1.step PageV1.initial events1)) ≤ 800.
Proof.
  assert (H2 : ∀ s, selection_ok s → selection_ok (foldl Page.step s events)).
  { induction events as [|e rest IH]; intros s Hs; [done|].
    simpl. apply IH. by apply step_ok. }
  assert (H1 : ∀ s : PageV1.State, length (PageV1.files s) ≤ 800 →
               length (PageV1.files (foldl PageV1.step s events1)) ≤ 800).
  { induction events1 as [|e rest IH]; intros s Hs; [done|].
    simpl. apply IH. destruct e as [[arr|]|index]; simpl; [|done|].
    - destruct (800 <? length arr) eqn:Hcap; [done|].
      apply Nat.ltb_ge in Hcap. done.
    - rewrite filter_index, length_app, length_take, length_drop. lia. }
  destruct (H2 Page.initial) as [Hlen Hpdf].
  { split; [simpl; lia|constructor]. }
  split_and!; [done| |apply H1; simpl; lia].
  eapply Forall_impl; [exact Hpdf|]. intros f Hf. unfold Page.isPdf in Hf.
  by apply orb_true_iff in Hf.
Qed.

(** X17. The drop highlight follows the pointer: after any sequence of
    events in which the pointer never leaves more often than it entered
    since the last drop, the counter is the number of entries not yet left,
    and the zone is highlighted exactly when that number is not zero. *)
Theorem drag_highlight_follows_the_pointer (events : list Page.Event) :
  Page.nested 0 events = true →
  let s := foldl Page.step Page.initial events in
  (0 ≤ Page.dragCounter s)%Z ∧
  Page.isDragging s = (0 <? Page.dragCounter s)%Z.
Proof.
  assert (Hgen : ∀ (c : nat) (s : Page.State),
            Page.dragCounter s = Z.of_nat c →
            Page.isDragging s = (0 <? Z.of_nat c)%Z →
            Page.nested c events = true →
            (0 ≤ Page.dragCounter (foldl Page.step s events))%Z ∧
            Page.isDragging (foldl Page.step s events)
              = (0 <? Page.dragCounter (foldl Page.step s events))%Z).
  { assert (Hadd : ∀ l s, Page.dragCounter (Page.addFiles l s) = Page.dragCounter s ∧
                          Page.isDragging (Page.addFiles l s) = Page.isDragging s).
    { intros l s. unfold Page.addFiles. by destruct (length _ =? 0). }
    induction events as [|e rest IH]; intros c s Hc Hd Hn.
    - simpl. rewrite Hd, Hc. split; [lia|done].
    - change (foldl Page.step s (e :: rest)) with (foldl Page.step (Page.step s e) rest).
      destruct e as [[l|]| | | |dropped|index]; simpl in Hn.
      + change (Page.step s (Page.FileChange (Some l))) with (Page.addFiles l s).
        destruct (Hadd l s) as [Ec Ed]. apply (IH c); [| |done]; congruence.
      + by apply (IH c).
      + apply (IH (S c)); [| |done]; simpl; [lia|].
        symmetry. apply Z.ltb_lt. lia.
      + destruct c as [|c]; [done|]. apply (IH c); [| |done]; simpl; [lia|].
        rewrite Hc. destruct (Z.eqb_spec (Z.of_nat (S c) - 1) 0) as [E|E].
        * symmetry. apply Z.ltb_ge. lia.
        * rewrite Hd. destruct (Z.ltb_spec 0 (Z.of_nat (S c))),
            (Z.ltb_spec 0 (Z.of_nat c)); try done; lia.
      + by apply (IH c).
      + destruct dropped as [l|]; [|by apply (IH 0%nat)].
        change (Page.step s (Page.Drop (Some l))) with
          (Page.addFiles l
             {| Page.files := Page.files s; Page.badFiles := Page.badFiles s;
                Page.totalBad := Page.totalBad s;
                Page.resultInfo := Page.resultInfo s;
                Page.isDragging := false; Page.dragCounter := 0 |}).
        match goal with
        | |- context [Page.addFiles l ?t] => destruct (Hadd l t) as [Ec Ed]
        end.
        apply (IH 0%nat); [| |done]; [by rewrite Ec|by rewrite Ed].
      + by apply (IH c). }
  intros Hn s. apply (Hgen 0%nat); done.
Qed.

(** X18. The size shown for a file is its size in the unit, rounded to the
    nearest tenth: bytes below 1024; from 1024 bytes, tenths of KB that
    differ from the size by at most a twentieth of a KB, between 1.0 and
    1024.0, the latter from 1048525 bytes on; from 1048576 bytes, tenths of
    MB within a twentieth of a MB.  (A size is an integer that binary64
    holds, so its quotient by 1024 or 1024 * 1024 is exact.) *)
Theorem formatSize_rounds_to_tenths (bytes : N) :
  ((bytes < 1024)%N → formatSize bytes = pretty bytes +:+ " B") ∧
  ((1024 ≤ bytes < 1048576)%N →
     ∃ n : N,
       formatSize bytes =
         (pretty (n / 10)%N +:+ "." +:+ pretty (n mod 10)%N) +:+ " KB" ∧
       (10 ≤ n ≤ 10240)%N ∧
       (1024 * n ≤ 10 * bytes + 512 < 1024 * n + 1024)%N ∧
       (n = 10240%N ↔ (1048525 ≤ bytes)%N)) ∧
  ((1048576 ≤ bytes)%N →
     ∃ n : N,
       formatSize bytes =
         (pretty (n / 10)%N +:+ "." +:+ pretty (n mod 10)%N) +:+ " MB" ∧
       (10 ≤ n)%N ∧
       (1048576 * n ≤ 10 * bytes + 524288 < 1048576 * n + 1048576)%N).
Proof.
  unfold formatSize, toFixed1.
  change (1024 * 1024)%N with 1048576%N.
  change (1024 / 2)%N with 512%N. change (1048576 / 2)%N with 524288%N.
  split_and!.
  - intros Hb. apply N.ltb_lt in Hb. by rewrite Hb.
  - intros [Hlo Hhi].
    apply N.ltb_ge in Hlo as Hlo'. apply N.ltb_lt in Hhi as Hhi'.
    rewrite Hlo', Hhi'. exists ((10 * bytes + 512) / 1024)%N.
    pose proof (N.div_mod (10 * bytes + 512) 1024 ltac:(done)) as Hdm.
    pose proof (N.mod_lt (10 * bytes + 512) 1024 ltac:(done)) as Hlt.
    split; [done|].
    generalize dependent ((10 * bytes + 512) / 1024)%N.
    generalize dependent ((10 * bytes + 512) mod 1024)%N.
    intros r Hr n Hn. lia.
  - intros Hlo. apply N.ltb_ge in Hlo as Hlo'.
    assert ((bytes <? 1024)%N = false) as -> by (apply N.ltb_ge; lia).
    rewrite Hlo'. exists ((10 * bytes + 524288) / 1048576)%N.
    pose proof (N.div_mod (10 * bytes + 524288) 1048576 ltac:(done)) as Hdm.
    pose proof (N.mod_lt (10 * bytes + 524288) 1048576 ltac:(done)) as Hlt.
    split; [done|].
    generalize dependent ((10 * bytes + 524288) / 1048576)%N.
    generalize dependent ((10 * bytes + 524288) mod 1048576)%N.
    intros r Hr n Hn. lia.
Qed.

End Selection.

(** ** The route handler *)

Lemma paper_of_spec s :
  match paper_of s with
  | Some _ => s = "A4" ∨ s = "A3"
  | None => ¬ (s = "A4" ∨ s = "A3")
  end.
Proof.
  unfold paper_of.
  destruct (String.eqb_spec s "A4"); [by left|].
  destruct (String.eqb_spec s "A3"); [by right|]. by intros [?|?].
Qed.

Lemma orientation_of_spec s :
  match orientation_of s with
  | Some _ => s = "landscape" ∨ s = "portrait"
  | None => ¬ (s = "landscape" ∨ s = "portrait")
  end.
Proof.
  unfold orientation_of.
  destruct (String.eqb_spec s "landscape"); [by left|].
  destruct (String.eqb_spec s "portrait"); [by right|]. by intros [?|?].
Qed.

Lemma layout_of_spec s :
  match layout_of s with
  | Some _ => s = "4x2" ∨ s = "2x4"
  | None => ¬ (s = "4x2" ∨ s = "2x4")
  end.
Proof.
  unfold layout_of.
  destruct (String.eqb_spec s "4x2"); [by left|].
  destruct (String.eqb_spec s "2x4"); [by right|]. by intros [?|?].
Qed.

(** The reading loop stops at the first file over the limit. *)
Lemma read_files_spec (files : list File) (inputFiles : list InputFile) :
  (Forall (fun file => (file_size file ≤ MAX_FILE_SIZE)%N) files ∧
   read_files files inputFiles = inr (inputFiles ++ (to_input <$> files))) ∨
  (∃ l1 file l2,
     files = l1 ++ file :: l2 ∧
     Forall (fun file => (file_size file ≤ MAX_FILE_SIZE)%N) l1 ∧
     (MAX_FILE_SIZE < file_size file)%N ∧
     read_files files inputFiles = inl (file_name file)).
Proof.
  revert inputFiles. induction files as [|file rest IH]; intros inputFiles.
  - left. split; [constructor|]. simpl. by rewrite app_nil_r.
  - simpl. destruct (N.ltb_spec MAX_FILE_SIZE (file_size file)) as [Hbig|Hok].
    + right. exists [], file, rest. by split_and!.
    + destruct (IH (inputFiles ++ [to_input file]))
        as [[Hall Hread]|(l1 & f & l2 & -> & Hl1 & Hbig & Hread)].
      * left. split; [by constructor|].
        change {| name := file_name file; data := file_bytes file |}
          with (to_input file).
        by rewrite Hread, <- app_assoc.
      * right. exists (file :: l1), f, l2. split_and!; [done|by constructor|done|].
        exact Hread.
Qed.


Lemma field_or_idem x d : field_or (Some (field_or x d)) d = field_or x d.
Proof.
  unfold field_or at 1. destruct (String.eqb_spec (field_or x d) EmptyString) as [E|E]; [|done].
  unfold field_or in *. destruct x as [s|]; [|done].
  destruct (String.eqb_spec s EmptyString); congruence.
Qed.

Lemma upper_ascii_idem c : upper_ascii (upper_ascii c) = upper_ascii c.
Proof. by destruct c as [[] [] [] [] [] [] [] []]. Qed.

Lemma toUpperCase_idem s : toUpperCase (toUpperCase s) = toUpperCase s.
Proof. induction s as [|c s IH]; [done|]. simpl. by rewrite upper_ascii_idem, IH. Qed.

Lemma field_or_paper x :
  toUpperCase (field_or (Some (toUpperCase (field_or x "A4"))) "A4")
    = toUpperCase (field_or x "A4").
Proof.
  unfold field_or at 1.
  destruct (String.eqb_spec (toUpperCase (field_or x "A4")) EmptyString) as [E|E].
  - exfalso. unfold field_or in E. destruct x as [s|]; [|done].
    destruct (String.eqb_spec s EmptyString) as [?|Hs]; [done|].
    by destruct s.
  - apply toUpperCase_idem.
Qed.

Lemma read_files_first l1 file l2 inputFiles :
  Forall (fun f => (file_size f ≤ MAX_FILE_SIZE)%N) l1 →
  (MAX_FILE_SIZE < file_size file)%N →
  read_files (l1 ++ file :: l2) inputFiles = inl (file_name file).
Proof.
  intros Hl1 Hbig. revert inputFiles.
  induction Hl1 as [|f l1 Hf _ IH]; intros inputFiles; simpl.
  - apply N.ltb_lt in Hbig. by rewrite Hbig.
  - assert ((MAX_FILE_SIZE <? file_size f)%N = false) as -> by (by apply N.ltb_ge).
    apply IH.
Qed.

Section Handler.
Context {num : Type} `{Number num}.
Variable pdf_load : list Byte.byte -> @LoadResult num.
Variable pdf_save : list (Sheet num) -> completion (list Byte.byte).
Variable parseFloat : string -> num.
Variable isNaN : num -> bool.
Variable nlt : num -> num -> bool.
Implicit Types (formData : FormData) (now : Date).

(** What the engine's result says, whichever way the run went. *)
Lemma impose8up_result inputFiles options r :
  impose8up pdf_load pdf_save inputFiles options = Returned r →
  bad_files r = take 50 (rejections pdf_load inputFiles) ∧
  total_bad r = length (rejections pdf_load inputFiles) ∧
  ((success r = false ∧ pdfBytes r = None ∧
    result_error r = Some "Aucun PDF valide n'a pu être ouvert." ∧
    accepted pdf_load inputFiles = []) ∨
   (success r = true ∧ accepted pdf_load inputFiles ≠ [] ∧
    ∃ out bytes,
      assemble (geometry options) (arena (load_all pdf_load inputFiles))
        (allPages (load_all pdf_load inputFiles)) = Returned out ∧
      pdf_save out = Returned bytes ∧
      pdfBytes r = Some bytes ∧
      total_pages r = Some (sum_list (getPageCount <$> accepted pdf_load inputFiles)) ∧
      sheets r =
        Some ((sum_list (getPageCount <$> accepted pdf_load inputFiles) + 7) / 8) ∧
      length out =
        (sum_list (getPageCount <$> accepted pdf_load inputFiles) + 7) / 8 ∧
      1 ≤ sum_list (getPageCount <$> accepted pdf_load inputFiles))).
Proof.
  unfold impose8up.
  pose proof (no_page_iff_none_accepted pdf_load inputFiles) as Hnone.
  pose proof (run_assembles pdf_load inputFiles options) as Hrun.
  cbv zeta in Hrun. destruct Hrun as (out & Hout & Hlen & _).
  rewrite load_all_bad.
  destruct (_ =? 0) eqn:HN.
  - apply Nat.eqb_eq in HN. apply Hnone in HN. intros [= <-].
    split_and!; [done|done|]. by left.
  - apply Nat.eqb_neq in HN. rewrite Hout.
    change (Returned out ≫= ?f) with (f out). cbv beta. intros Hr.
    apply bind_Returned in Hr as (bytes & Hsave & [= <-]).
    cbn [success pdfBytes total_pages sheets result_error total_bad bad_files].
    split_and!; [done|done|]. right.
    assert (Hcount : length out =
              (length (allPages (load_all pdf_load inputFiles)) + 8 - 1) / 8)
      by (apply ceil_count; [lia|done]).
    assert (HNeq : length (allPages (load_all pdf_load inputFiles)) =
              sum_list (getPageCount <$> accepted pdf_load inputFiles))
      by (by rewrite load_all_allPages, length_flattened).
    rewrite HNeq in *.
    replace (sum_list (getPageCount <$> accepted pdf_load inputFiles) + 8 - 1)
      with (sum_list (getPageCount <$> accepted pdf_load inputFiles) + 7)
      in Hcount by lia.
    split_and!; [done|by rewrite <- Hnone|].
    exists out, bytes. rewrite <- Hcount. split_and!; try done. lia.
Qed.

(** The checks of the handler, then the engine on the inputs it read. *)
Lemma POST_cases formData now :
  (¬ valid_request parseFloat isNaN nlt formData ∧
   ∃ message,
     POST pdf_load pdf_save parseFloat isNaN nlt formData now
       = Returned (JsonError 400 message None)) ∨
  (valid_request parseFloat isNaN nlt formData ∧
   POST pdf_load pdf_save parseFloat isNaN nlt formData now =
     match impose8up pdf_load pdf_save (to_input <$> form_files formData)
             (options_of parseFloat formData) with
     | OutOfFuel => OutOfFuel
     | Thrown => Returned InternalError
     | Returned result =>
         match success result, pdfBytes result with
         | true, Some bytes =>
             Returned
               (PdfAttachment bytes
                  ("LOT_" +:+
                   (pretty (getFullYear now) +:+ pad (getMonth now + 1) +:+
                    pad (getDate now) +:+ "_" +:+ pad (getHours now) +:+
                    pad (getMinutes now) +:+ pad (getSeconds now)) +:+ ".pdf")
                  (default 0 (total_pages result))
                  (default 0 (sheets result))
                  (bad_files result) (total_bad result))
         | _, _ =>
             Returned
               (JsonError 422
                  (field_or (result_error result) "Imposition failed")
                  (Some (bad_files result, total_bad result)))
         end
     end).
Proof.
  unfold POST, valid_request, valid_fields, options_of, bad_request. cbv zeta.
  pose proof (paper_of_spec (toUpperCase (field_or (form_paper formData) "A4")))
    as Hp.
  pose proof (orientation_of_spec
                (field_or (form_orientation formData) "landscape")) as Ho.
  pose proof (layout_of_spec (field_or (form_layout formData) "4x2")) as Hl.
  destruct (paper_of _) as [pa|];
    [|left; split; [by intros [[? _] _]|by eexists]].
  destruct (orientation_of _) as [ori|];
    [|left; split; [by intros [(_ & ? & _) _]|by eexists]].
  destruct (layout_of _) as [lay|];
    [|left; split; [by intros [(_ & _ & ? & _) _]|by eexists]].
  destruct (out_of_range isNaN nlt (parseFloat (field_or (form_margin_mm formData) "6.0")))
    eqn:Hm; [left; split; [by intros [(_ & _ & _ & ? & _) _]|by eexists]|].
  destruct (out_of_range isNaN nlt (parseFloat (field_or (form_gap_mm formData) "3.0")))
    eqn:Hg; [left; split; [by intros [(_ & _ & _ & _ & ?) _]|by eexists]|].
  destruct (Nat.eqb_spec (length (form_files formData)) 0) as [H0|H0];
    [left; split; [intros (_ & ? & _); lia|by eexists]|].
  destruct (Nat.ltb_spec MAX_FILES (length (form_files formData))) as [Hmany|Hmany];
    [left; split; [intros (_ & ? & _); lia|by eexists]|].
  destruct (read_files_spec (form_files formData) [])
    as [[Hall Hread]|(l1 & file & l2 & Hfiles & Hl1 & Hbig & Hread)];
    rewrite Hread.
  - right. split; [|done].
    split_and!; try done; [lia|]. by apply Forall_forall.
  - left. split; [|by eexists].
    intros (_ & _ & Hsize). specialize (Hsize file). rewrite Hfiles in Hsize.
    assert (file_size file ≤ MAX_FILE_SIZE)%N
      by (apply Hsize, elem_of_app; right; apply elem_of_cons; by left).
    lia.
Qed.

(** X19. A request gets status 400 exactly when it fails a check of the
    handler: when a check fails the answer is a 400 with a message and
    without a list of bad files, whatever the engine would do; when every
    check passes, the answer, if there is one, has status 200, 422 or
    500. *)
Theorem bad_request_exactly_when_a_check_fails formData now :
  (¬ valid_request parseFloat isNaN nlt formData →
     ∃ message,
       POST pdf_load pdf_save parseFloat isNaN nlt formData now
         = Returned (JsonError 400 message None)) ∧
  (valid_request parseFloat isNaN nlt formData →
     ∀ response,
       POST pdf_load pdf_save parseFloat isNaN nlt formData now = Returned response →
       status_of response = 200 ∨ status_of response = 422 ∨
       status_of response = 500).
Proof.
  destruct (POST_cases formData now) as [[Hinv [message Hpost]]|[Hval Hpost]].
  - split; [by exists message|done].
  - split; [done|]. intros _ response. rewrite Hpost.
    destruct (impose8up _ _ _ _) as [r| |]; [|by intros [= <-]; auto|done].
    destruct (success r), (pdfBytes r); intros [= <-]; auto.
Qed.

(** X20. What the headers of a 200 say: the request passed every check;
    X-Total-Pages is the number of pages of the accepted uploads and at
    least one; X-Sheets is ceil(pages / 8); X-Total-Bad is the number of
    rejected uploads and less than the number of uploads; X-Bad-Files lists
    the first fifty of them; the body is the saved output, which has as
    many sheets as X-Sheets says. *)
Theorem attachment_headers formData now body filename tp sh bad tb :
  POST pdf_load pdf_save parseFloat isNaN nlt formData now
    = Returned (PdfAttachment body filename tp sh bad tb) →
  let inputFiles := to_input <$> form_files formData in
  valid_request parseFloat isNaN nlt formData ∧
  tp = sum_list (getPageCount <$> accepted pdf_load inputFiles) ∧
  1 ≤ tp ∧
  sh = (tp + 7) / 8 ∧
  tb = length (rejections pdf_load inputFiles) ∧
  tb < length (form_files formData) ∧
  bad = take 50 (rejections pdf_load inputFiles) ∧
  ∃ out,
    assemble (geometry (options_of parseFloat formData))
      (arena (load_all pdf_load inputFiles))
      (allPages (load_all pdf_load inputFiles)) = Returned out ∧
    length out = sh ∧
    pdf_save out = Returned body.
Proof.
  intros Hpost inputFiles.
  destruct (POST_cases formData now) as [[_ [message Hbad]]|[Hval Hrun]];
    [congruence|].
  rewrite Hrun in Hpost. fold inputFiles in Hpost.
  destruct (impose8up _ _ _ _) as [r| |] eqn:Hr; [|done|done].
  destruct (impose8up_result _ _ _ Hr) as (Hbadf & Htb & Hcase).
  destruct Hcase as [(Hs & Hb & _)|(Hs & Hne & out & bytes & Hout & Hsave & Hb & Htp & Hsh & Hlen & Hpos)].
  - rewrite Hs in Hpost. done.
  - rewrite Hs, Hb in Hpost. injection Hpost as <- _ <- <- <- <-.
    rewrite Htp, Hsh. simpl.
    pose proof (kept_or_recorded pdf_load inputFiles) as Hsum.
    unfold inputFiles in Hsum at 3. rewrite length_fmap in Hsum.
    split_and!; try done.
    + destruct (accepted pdf_load inputFiles); [done|]. simpl in Hsum. lia.
    + exists out. by split_and!.
Qed.

(** X21. A valid request is answered 422 exactly when no upload can be
    opened: if every upload is rejected the answer is the 422 with the
    engine's message, the first fifty rejections and the number of uploads
    as [total_bad]; and an answer of status 422 means that every upload
    was rejected. *)
Theorem unprocessable_exactly_when_nothing_opens formData now :
  valid_request parseFloat isNaN nlt formData →
  let inputFiles := to_input <$> form_files formData in
  ((∀ file, file ∈ form_files formData →
      is_accepted pdf_load (to_input file) = false) →
   POST pdf_load pdf_save parseFloat isNaN nlt formData now =
     Returned
       (JsonError 422 "Aucun PDF valide n'a pu être ouvert."
          (Some (take 50 (rejections pdf_load inputFiles),
                 length (form_files formData))))) ∧
  (∀ response,
     POST pdf_load pdf_save parseFloat isNaN nlt formData now = Returned response →
     status_of response = 422 →
     ∀ file, file ∈ form_files formData →
       is_accepted pdf_load (to_input file) = false).
Proof.
  intros Hval inputFiles.
  destruct (POST_cases formData now) as [[Hinv _]|[_ Hrun]]; [done|].
  rewrite Hrun. fold inputFiles.
  pose proof (none_accepted pdf_load inputFiles) as Hnone.
  assert (Hall : (∀ file, file ∈ inputFiles → is_accepted pdf_load file = false) ↔
                 (∀ file, file ∈ form_files formData →
                    is_accepted pdf_load (to_input file) = false)).
  { unfold inputFiles. split.
    - intros Hx file Hfile. apply Hx. by apply list_elem_of_fmap_2.
    - intros Hx file Hfile. apply list_elem_of_fmap in Hfile as (f & -> & Hf).
      by apply Hx. }
  rewrite <- Hall, <- Hnone. split.
  - intros Hacc.
    assert (Hfail : impose8up pdf_load pdf_save inputFiles
                      (options_of parseFloat formData) =
              Returned
                {| success := false; pdfBytes := None; total_pages := None;
                   sheets := None;
                   bad_files := take 50 (rejections pdf_load inputFiles);
                   total_bad := length (rejections pdf_load inputFiles);
                   result_error := Some "Aucun PDF valide n'a pu être ouvert." |}).
    { unfold impose8up. rewrite load_all_allPages, load_all_bad, Hacc. done. }
    rewrite Hfail. simpl.
    pose proof (kept_or_recorded pdf_load inputFiles) as Hsum.
    rewrite Hacc in Hsum. simpl in Hsum. rewrite Hsum.
    unfold inputFiles. by rewrite length_fmap.
  - intros response.
    destruct (impose8up _ _ _ _) as [r| |] eqn:Hr; [|by intros [= <-]|done].
    destruct (impose8up_result _ _ _ Hr) as (_ & _ & Hcase).
    destruct Hcase as [(_ & _ & _ & Hacc)|(Hs & _ & out & bytes & _ & _ & Hb & _)];
      [intros _ _; apply Hall, Hnone; exact Hacc|].
    rewrite Hs, Hb. by intros [= <-].
Qed.

(** X22. The defaults and the case of the paper: a field that is not
    sent, or sent empty, is read as its default (A4, landscape, 4x2, 6.0,
    3.0), and the paper is read in upper case, so the request with every
    field spelled out gets the same answer. *)
Theorem fields_default_and_paper_ignores_case formData now :
  POST pdf_load pdf_save parseFloat isNaN nlt (with_defaults formData) now =
  POST pdf_load pdf_save parseFloat isNaN nlt formData now.
Proof.
  unfold POST, with_defaults.
  cbn [form_paper form_orientation form_layout form_margin_mm form_gap_mm form_files].
  by rewrite field_or_paper, !field_or_idem.
Qed.

(** X23. The size check names the first upload over the limit: when the
    text fields are valid and the uploads are at most 800, the answer is a
    400 whose message quotes the name of the first upload of more than
    100 MB, whatever follows it. *)
Theorem oversize_file_is_named formData now l1 file l2 :
  valid_fields parseFloat isNaN nlt formData →
  form_files formData = l1 ++ file :: l2 →
  length (form_files formData) ≤ MAX_FILES →
  (∀ f, f ∈ l1 → (file_size f ≤ MAX_FILE_SIZE)%N) →
  (MAX_FILE_SIZE < file_size file)%N →
  POST pdf_load pdf_save parseFloat isNaN nlt formData now =
    Returned
      (JsonError 400
         ("File " +:+ quote +:+ file_name file +:+ quote +:+ " exceeds 100 MB limit.")
         None).
Proof.
  intros (Hp & Ho & Hl & Hm & Hg) Hfiles Hlen Hl1 Hbig.
  unfold POST, bad_request. cbv zeta in *.
  pose proof (paper_of_spec (toUpperCase (field_or (form_paper formData) "A4")))
    as Hp'.
  pose proof (orientation_of_spec
                (field_or (form_orientation formData) "landscape")) as Ho'.
  pose proof (layout_of_spec (field_or (form_layout formData) "4x2")) as Hl'.
  destruct (paper_of _); [|done].
  destruct (orientation_of _); [|done].
  destruct (layout_of _); [|done].
  rewrite Hm, Hg.
  destruct (Nat.eqb_spec (length (form_files formData)) 0) as [H0|_].
  { rewrite Hfiles, length_app in H0. simpl in H0. lia. }
  assert ((MAX_FILES <? length (form_files formData)) = false) as ->
    by (by apply Nat.ltb_ge).
  rewrite Hfiles, read_files_first; [done| |done]. by apply Forall_forall.
Qed.

End Handler.

(** ** More concrete runs *)

(** *** The handler *)

Lemma attachment_headers_witness :
  2 = (12 + 7) / 8 ∧ 1 < length (form_files demo_form).
Proof.
  destruct (@attachment_headers float float_Number demo_load (demo_save Byte.x00)
              demo_parseFloat PrimFloat.is_nan PrimFloat.ltb
              demo_form demo_date _ _ 12 2 _ 1 ltac:(vm_compute; reflexivity))
    as (_ & _ & _ & Hsh & _ & Htb & _).
  split; [exact Hsh|exact Htb].
Defined.

Lemma unprocessable_exactly_when_nothing_opens_witness :
  POST demo_load (demo_save Byte.x00) demo_parseFloat PrimFloat.is_nan PrimFloat.ltb
    junk_form demo_date =
  Returned
    (JsonError 422 "Aucun PDF valide n'a pu être ouvert."
       (Some (take 50 (rejections (num:=float) demo_load
                         (to_input <$> form_files junk_form)),
              length (form_files junk_form)))).
Proof.
  destruct (unprocessable_exactly_when_nothing_opens demo_load (demo_save Byte.x00)
              demo_parseFloat PrimFloat.is_nan PrimFloat.ltb junk_form demo_date)
    as [Hall _].
  - split_and!.
    + unfold valid_fields.
      split_and!; [by left|by right|by right|vm_compute; reflexivity..].
    + vm_compute. lia.
    + vm_compute. lia.
    + apply Forall_forall. repeat constructor; vm_compute; discriminate.
  - apply Hall. apply Forall_forall. repeat constructor; vm_compute; reflexivity.
Defined.

Lemma oversize_file_is_named_witness :
  POST demo_load (demo_save Byte.x00) demo_parseFloat PrimFloat.is_nan PrimFloat.ltb
    oversize_form demo_date =
  Returned
    (JsonError 400
       ("File " +:+ quote +:+ file_name oversize +:+ quote +:+ " exceeds 100 MB limit.")
       None).
Proof.
  apply (oversize_file_is_named demo_load (demo_save Byte.x00)
           demo_parseFloat PrimFloat.is_nan PrimFloat.ltb oversize_form demo_date
           [upload "a.pdf" Byte.x03] oversize [upload "c.pdf" Byte.x09]).
  - unfold valid_fields.
    cbn [oversize_form form_paper form_orientation form_layout form_margin_mm
         form_gap_mm].
    split_and!; try (vm_compute; reflexivity); by left.
  - reflexivity.
  - unfold oversize_form. cbn [form_files length]. unfold MAX_FILES. lia.
  - apply Forall_forall. repeat constructor. vm_compute. discriminate.
  - unfold file_size, oversize. cbn [file_bytes].
    rewrite length_replicate, N2Nat.id. unfold MAX_FILE_SIZE. lia.
Defined.

(** *** The engine *)

Lemma fails_exactly_when_nothing_is_accepted_witness :
  ∃ r,
    impose8up demo_load (demo_save Byte.x00) demo_inputs demo_options = Returned r ∧
    (success r = false ↔ pdfBytes r = None).
Proof.
  eexists. split; [exact demo_run|].
  destruct (fails_exactly_when_nothing_is_accepted demo_load (demo_save Byte.x00)
              demo_inputs demo_options _ demo_run) as (_ & _ & Hbytes & _).
  exact Hbytes.
Defined.

Lemma success_report_witness :
  ∃ N,
    N = sum_list (getPageCount <$> accepted (num:=Q) demo_load demo_inputs) ∧
    1 ≤ (N + 7) / 8 ∧ (N + 7) / 8 ≤ N.
Proof.
  destruct (success_report demo_load (demo_save Byte.x00) demo_inputs demo_options
              _ demo_run ltac:(reflexivity))
    as (N & out & bytes & _ & HN & _ & Hone & Hle & _).
  exists N. split_and!; [exact HN|exact Hone|exact Hle].
Defined.

Lemma no_blank_sheet_witness :
  ∃ out sheet,
    assemble (geometry demo_options) (arena (load_all demo_load demo_inputs))
      (allPages (load_all demo_load demo_inputs)) = Returned out ∧
    out !! 1 = Some sheet ∧
    1 ≤ length (placed sheet) ≤ 8.
Proof.
  eexists _, _. split; [vm_compute; reflexivity|]. split; [vm_compute; reflexivity|].
  destruct (no_blank_sheet (num:=Q) demo_load demo_inputs demo_options _ 1 _
              ltac:(vm_compute; reflexivity) ltac:(vm_compute; reflexivity))
    as [_ Hlen].
  exact Hlen.
Defined.


(** *** The upload form *)

Lemma drag_highlight_follows_the_pointer_witness :
  Page.isDragging
    (foldl Page.step Page.initial
       [Page.DragEnter; Page.DragEnter; Page.DragLeave; Page.FileChange None;
        Page.DragLeave; Page.DragEnter]) = true.
Proof.
  destruct (drag_highlight_follows_the_pointer
              [Page.DragEnter; Page.DragEnter; Page.DragLeave; Page.FileChange None;
               Page.DragLeave; Page.DragEnter]) as [_ Hshown].
  - reflexivity.
  - exact Hshown.
Defined.

(** *** The geometry *)

Local Open Scope Q_scope.

Lemma cells_do_not_overlap_witness :
  cell_x (geometry demo_options) 1 + Geom.cellW (geometry demo_options)
    + Geom.gap (geometry demo_options) <= cell_x (geometry demo_options) 6 ∨
  cell_x (geometry demo_options) 6 + Geom.cellW (geometry demo_options)
    + Geom.gap (geometry demo_options) <= cell_x (geometry demo_options) 1 ∨
  cell_y (geometry demo_options) 1 + Geom.cellH (geometry demo_options)
    + Geom.gap (geometry demo_options) <= cell_y (geometry demo_options) 6 ∨
  cell_y (geometry demo_options) 6 + Geom.cellH (geometry demo_options)
    + Geom.gap (geometry demo_options) <= cell_y (geometry demo_options) 1.
Proof.
  apply (cells_do_not_overlap demo_options 1 6).
  - vm_compute. discriminate.
  - vm_compute. discriminate.
  - vm_compute. discriminate.
  - vm_compute. lia.
  - vm_compute. lia.
  - lia.
Defined.

Lemma valid_options_give_cells_witness :
  0 < Geom.cellW (geometry demo_options) ∧ 0 < Geom.cellH (geometry demo_options).
Proof.
  apply (valid_options_give_cells demo_options).
  - split; vm_compute; discriminate.
  - split; vm_compute; discriminate.
  - right. left. split; reflexivity.
Defined.

Lemma drawn_page_within_margins_witness :
  at_x (place (geometry demo_options) 7 demo_page)
    + drawn_width (place (geometry demo_options) 7 demo_page)
    <= Geom.w (geometry demo_options) - Geom.margin (geometry demo_options).
Proof.
  destruct (drawn_page_within_margins demo_options 7 demo_page)
    as (_ & Hright & _).
  - vm_compute. discriminate.
  - vm_compute. discriminate.
  - vm_compute. discriminate.
  - vm_compute. lia.
  - reflexivity.
  - reflexivity.
  - exact Hright.
Defined.

Lemma scale_is_the_largest_that_fits_witness :
  width demo_page * (1 # 10)
    <= drawn_width (place (geometry demo_options) 0 demo_page).
Proof.
  destruct (scale_is_the_largest_that_fits (geometry demo_options) 0 demo_page (1 # 10))
    as [Hwide _].
  - reflexivity.
  - reflexivity.
  - vm_compute. discriminate.
  - vm_compute. discriminate.
  - exact Hwide.
Defined.

Lemma drawn_size_depends_on_proportions_witness :
  drawn_width
    (place (geometry demo_options) 0
       {| source := source demo_page;
          width := 2 * width demo_page; height := 2 * height demo_page |})
    == drawn_width (place (geometry demo_options) 0 demo_page).
Proof.
  destruct (drawn_size_depends_on_proportions (geometry demo_options) 0 demo_page 2)
    as (Hsame & _).
  - reflexivity.
  - reflexivity.
  - reflexivity.
  - exact Hsame.
Defined.
